(** * Character validator and JSON tree viewer

    A shallow embedding of

    - [src/lib/schema.ts]: the zod schema [characterSchema], the helper
      [formatZodError] and the [validateFile] handler that uses them;
    - [src/components/JsonViewer.tsx]: the recursive [JsonNode] component and
      its [JsonViewer] wrapper;

    together with the properties the specification states about them.

    The schema is written with the combinators of the zod library (v3: the
    code reads [error.errors]).  The library is not part of the repository;
    module [Zod] models the part of its synchronous parser that the schema
    exercises, function by function ([getParsedType], the default error map,
    [ParseStatus.mergeArray], [ParseStatus.mergeObjectSync] and the [_parse]
    methods of [ZodString], [ZodArray], [ZodObject], [ZodRecord] and
    [ZodOptional]). *)

From Stdlib Require Import List String Ascii Bool Arith Lia PrimFloat.
From Stdlib Require Import Decimal DecimalString.
Import ListNotations.
Local Open Scope string_scope.
Local Open Scope list_scope.
#[local] Set Warnings "-register-all".

(* ================================================================= *)
(** * JSON values *)

(** The values [JSON.parse] returns.  Numbers are IEEE 754 doubles; an object
    is the list of its own properties in iteration order. *)
Inductive json : Type :=
| JNull
| JBool (b : bool)
| JNumber (n : float)
| JString (s : string)
| JArray (items : list json)
| JObject (props : list (string * json)).

(** What a call can do: return a value, or throw. *)
Inductive Completion (E A : Type) : Type :=
| Returns (value : A)
| Throws (e : E).
Arguments Returns {E A} value.
Arguments Throws {E A} e.

Module Js.

(** [o[k]]: the value of property [k], [None] standing for [undefined]. *)
Fixpoint get (k : string) (o : list (string * json)) : option json :=
  match o with
  | [] => None
  | (k', v) :: rest => if String.eqb k k' then Some v else get k rest
  end.

(** [k in o]. *)
Definition has (k : string) (o : list (string * json)) : bool :=
  existsb (String.eqb k) (map fst o).

(** [o[k] = v]: an existing property keeps its place, a new one goes last. *)
Fixpoint set (k : string) (v : json) (o : list (string * json))
  : list (string * json) :=
  match o with
  | [] => [(k, v)]
  | (k', v') :: rest =>
      if String.eqb k k' then (k, v) :: rest else (k', v') :: set k v rest
  end.

(** [Object.keys(o)]. *)
Definition keys (o : list (string * json)) : list string := map fst o.

(** [String(n)] for an array index. *)
Definition string_of_nat (n : nat) : string :=
  NilEmpty.string_of_uint (Nat.to_uint n).

(** [xs.map((x, i) => f(i, x))], counting from [i]. *)
Fixpoint mapi_from {A B : Type} (f : nat -> A -> B) (i : nat) (xs : list A)
  : list B :=
  match xs with
  | [] => []
  | x :: rest => f i x :: mapi_from f (S i) rest
  end.

Definition mapi {A B : Type} (f : nat -> A -> B) (xs : list A) : list B :=
  mapi_from f 0 xs.

(** Every property name of every object in the value occurs once, as in
    any object that exists at run time. *)
Fixpoint nodup_keys (ks : list string) : bool :=
  match ks with
  | [] => true
  | k :: rest => negb (existsb (String.eqb k) rest) && nodup_keys rest
  end.

Fixpoint well_formed (v : json) : bool :=
  match v with
  | JArray items => forallb well_formed items
  | JObject props =>
      nodup_keys (map fst props)
      && forallb (fun kv => well_formed (snd kv)) props
  | _ => true
  end.

End Js.

(* ================================================================= *)
(** * The zod fragment used by the schema *)

Module Zod.

(** ** Parsed types and issues *)

Inductive ZodParsedType :=
| t_undefined | t_null | t_boolean | t_number | t_nan
| t_string | t_array | t_object.

Definition type_name (t : ZodParsedType) : string :=
  match t with
  | t_undefined => "undefined"
  | t_null => "null"
  | t_boolean => "boolean"
  | t_number => "number"
  | t_nan => "nan"
  | t_string => "string"
  | t_array => "array"
  | t_object => "object"
  end.

(** [getParsedType(data)] on a JSON value or [undefined]. *)
Definition getParsedType (data : option json) : ZodParsedType :=
  match data with
  | None => t_undefined
  | Some JNull => t_null
  | Some (JBool _) => t_boolean
  | Some (JNumber n) => if PrimFloat.is_nan n then t_nan else t_number
  | Some (JString _) => t_string
  | Some (JArray _) => t_array
  | Some (JObject _) => t_object
  end.

(** An element of an issue path: a property name or an array index. *)
Inductive PathSeg :=
| Key (k : string)
| Idx (i : nat).

(** The issue codes of [ZodIssueCode] that the schema can raise. *)
Definition invalid_type : string := "invalid_type".
Definition too_small : string := "too_small".

Record ZodIssue := mkIssue {
  issue_code : string;
  issue_path : list PathSeg;
  issue_message : string
}.

(** The default error map, for the two codes above. *)
Definition invalid_type_message (expected received : ZodParsedType) : string :=
  match received with
  | t_undefined => "Required"
  | _ =>
      ("Expected " ++ type_name expected ++ ", received " ++ type_name received)%string
  end.

Definition too_small_array_message (minimum : nat) : string :=
  ("Array must contain at least " ++ Js.string_of_nat minimum
     ++ " element(s)")%string.

Definition invalid_type_issue (path : list PathSeg)
    (expected : ZodParsedType) (data : option json) : ZodIssue :=
  mkIssue invalid_type path (invalid_type_message expected (getParsedType data)).

Definition too_small_issue (path : list PathSeg) (minimum : nat) : ZodIssue :=
  mkIssue too_small path (too_small_array_message minimum).

(** ** Parse results *)

(** [OK(value)], [DIRTY(value)] and [INVALID]; [None] is [undefined]. *)
Inductive ParseReturn :=
| OK (value : option json)
| DIRTY (value : option json)
| INVALID.

Definition is_dirty (r : ParseReturn) : bool :=
  match r with DIRTY _ => true | _ => false end.

Definition with_status (dirty : bool) (value : option json) : ParseReturn :=
  if dirty then DIRTY value else OK value.

(** [ParseStatus.mergeArray(status, results)].  The items of a JSON array
    are never [undefined], so neither is the value parsed from one (lemma
    [parse_value_defined]); the [None] arms are never taken. *)
Fixpoint mergeArray_from (dirty : bool) (results : list ParseReturn)
    (arrayValue : list json) : ParseReturn :=
  match results with
  | [] => with_status dirty (Some (JArray arrayValue))
  | INVALID :: _ => INVALID
  | OK (Some v) :: rest => mergeArray_from dirty rest (arrayValue ++ [v])
  | DIRTY (Some v) :: rest => mergeArray_from true rest (arrayValue ++ [v])
  | OK None :: rest => mergeArray_from dirty rest arrayValue
  | DIRTY None :: rest => mergeArray_from true rest arrayValue
  end.

Definition mergeArray (dirty : bool) (results : list ParseReturn) : ParseReturn :=
  mergeArray_from dirty results [].

(** A pair handed to [mergeObjectSync]: key, parsed value, [alwaysSet].
    Keys are property names, which [ZodString] always accepts, so the key
    half of a pair is always valid. *)
Definition Pair : Type := string * ParseReturn * bool.

(** [ParseStatus.mergeObjectSync(status, pairs)]:  a pair is written to
    the result unless its key is [__proto__] or its value is [undefined]
    for a key the input does not have.  The result lists its properties in
    the order in which they are written; the order in which JavaScript
    enumerates them, integer-like keys first, is not modelled, and the
    statements below read results by key. *)
Fixpoint mergeObjectSync_from (dirty : bool) (pairs : list Pair)
    (finalObject : list (string * json)) : ParseReturn :=
  match pairs with
  | [] => with_status dirty (Some (JObject finalObject))
  | (key, value, alwaysSet) :: rest =>
      match value with
      | INVALID => INVALID
      | OK v | DIRTY v =>
          let written :=
            if negb (String.eqb key "__proto__")
               && (match v with Some _ => true | None => false end || alwaysSet)
            then match v with
                 | Some x => Js.set key x finalObject
                 | None => finalObject
                 end
            else finalObject in
          mergeObjectSync_from (dirty || is_dirty value) rest written
      end
  end.

Definition mergeObjectSync (dirty : bool) (pairs : list Pair) : ParseReturn :=
  mergeObjectSync_from dirty pairs [].

(** ** Schemas *)

Inductive UnknownKeys := strip | passthrough.

Inductive ZodType : Type :=
| ZodString
| ZodArray (type : ZodType) (minLength : option nat)
| ZodObject (shape : list (string * ZodType)) (unknownKeys : UnknownKeys)
| ZodRecord (valueType : ZodType)
| ZodOptional (innerType : ZodType).

(** The builders, named as in the library. *)
Definition string_ : ZodType := ZodString.
Definition array (type : ZodType) : ZodType := ZodArray type None.
Definition object (shape : list (string * ZodType)) : ZodType :=
  ZodObject shape strip.
Definition record (valueType : ZodType) : ZodType := ZodRecord valueType.
Definition optional (s : ZodType) : ZodType := ZodOptional s.

Definition min (minLength : nat) (s : ZodType) : ZodType :=
  match s with
  | ZodArray type _ => ZodArray type (Some minLength)
  | _ => s
  end.

Definition passthrough_ (s : ZodType) : ZodType :=
  match s with
  | ZodObject shape _ => ZodObject shape passthrough
  | _ => s
  end.

(** ** The parser *)

(** The extra keys of a passthrough object, as pairs. *)
Definition extra_pairs (shapeKeys : list string) (props : list (string * json))
  : list Pair :=
  map (fun key => (key, OK (Js.get key props), false))
      (filter (fun key => negb (existsb (String.eqb key) shapeKeys))
              (Js.keys props)).

(** [schema._parse(input)]: the result, and the issues it adds to the
    context, in the order they are added. *)
Fixpoint _parse (s : ZodType) (path : list PathSeg) (data : option json)
    {struct s} : ParseReturn * list ZodIssue :=
  match s with
  | ZodString =>
      match data with
      | Some (JString _) => (OK data, [])
      | _ => (INVALID, [invalid_type_issue path t_string data])
      end
  | ZodOptional innerType =>
      match data with
      | None => (OK None, [])
      | Some _ => _parse innerType path data
      end
  | ZodArray type minLength =>
      match data with
      | Some (JArray items) =>
          let small :=
            match minLength with
            | Some minimum =>
                if Nat.ltb (List.length items) minimum
                then [too_small_issue path minimum] else []
            | None => []
            end in
          let results :=
            Js.mapi (fun i item => _parse type (path ++ [Idx i]) (Some item))
                    items in
          (mergeArray (match small with [] => false | _ => true end)
                      (map fst results),
           small ++ List.concat (map snd results))
      | _ => (INVALID, [invalid_type_issue path t_array data])
      end
  | ZodObject shape unknownKeys =>
      match data with
      | Some (JObject props) =>
          let fields :=
            map (fun entry =>
                   let key := fst entry in
                   (key,
                    _parse (snd entry) (path ++ [Key key]) (Js.get key props),
                    Js.has key props))
                shape in
          let pairs :=
            map (fun f => (fst (fst f), fst (snd (fst f)), snd f)) fields in
          let extra :=
            match unknownKeys with
            | passthrough => extra_pairs (map fst shape) props
            | strip => []
            end in
          (mergeObjectSync false (pairs ++ extra),
           List.concat (map (fun f => snd (snd (fst f))) fields))
      | _ => (INVALID, [invalid_type_issue path t_object data])
      end
  | ZodRecord valueType =>
      match data with
      | Some (JObject props) =>
          let fields :=
            map (fun key =>
                   (key,
                    _parse valueType (path ++ [Key key]) (Js.get key props),
                    Js.has key props))
                (Js.keys props) in
          (mergeObjectSync false
             (map (fun f => (fst (fst f), fst (snd (fst f)), snd f)) fields),
           List.concat (map (fun f => snd (snd (fst f))) fields))
      | _ => (INVALID, [invalid_type_issue path t_object data])
      end
  end.

(** What [parse] and its callers can throw. *)
Inductive Exception :=
| ZodError (issues : list ZodIssue)
| Error (message : string)
| TypeError (message : string).

(** [schema.parse(data)]: [safeParse], then throw the error if any.  The
    input is a JSON value, so a valid result carries a value. *)
Definition parse (s : ZodType) (data : json) : Completion Exception json :=
  match _parse s [] (Some data) with
  | (OK (Some value), _) => Returns value
  | (_, []) => Throws (Error "Validation failed but no issues detected.")
  | (_, issues) => Throws (ZodError issues)
  end.

(** ** Names for the parts of a parse *)

(** The value a result carries. *)
Definition value_of (r : ParseReturn) : option json :=
match r with OK v | DIRTY v => v | INVALID => None end.

Definition is_OK (r : ParseReturn) : Prop := exists v, r = OK v.

(** The pair a declared property contributes, and the issues it raises. *)
Definition field_pair (p : list PathSeg) (props : list (string * json))
  (entry : string * ZodType) : Pair :=
(fst entry,
 fst (_parse (snd entry) (p ++ [Key (fst entry)]) (Js.get (fst entry) props)),
 Js.has (fst entry) props).

Definition field_issues (p : list PathSeg) (props : list (string * json))
  (entry : string * ZodType) : list ZodIssue :=
snd (_parse (snd entry) (p ++ [Key (fst entry)]) (Js.get (fst entry) props)).

(** The parse of the item at index [i] of an array. *)
Definition item_result (type : ZodType) (p : list PathSeg) (i : nat) (item : json)
: ParseReturn * list ZodIssue :=
_parse type (p ++ [Idx i]) (Some item).

(** The entry of a shape for a key. *)
Definition entry_of (shape : list (string * ZodType)) (k : string)
: option (string * ZodType) :=
find (fun e => String.eqb k (fst e)) shape.

End Zod.

(* ================================================================= *)
(** * src/lib/schema.ts *)

Module Schema.
Import Zod.

Definition characterSchema : ZodType :=
  object [
    ("name", string_);
    ("plugins", optional (array string_));
    ("clients", min 1 (array string_));
    ("modelProvider", string_);
    ("settings",
      optional (passthrough_ (object [
        ("secrets", optional (record string_));
        ("voice", optional (object [("model", string_)]))
      ])));
    ("system", optional string_);
    ("bio", min 1 (array string_));
    ("lore", min 1 (array string_));
    ("messageExamples",
      min 1 (array (min 1 (array (object [
        ("user", string_);
        ("content", object [
          ("text", string_);
          ("action", optional string_)
        ])
      ])))));
    ("postExamples", min 1 (array string_));
    ("adjectives", min 1 (array string_));
    ("topics", min 1 (array string_));
    ("knowledge", optional (array string_));
    ("style", object [
      ("all", min 1 (array string_));
      ("chat", min 1 (array string_));
      ("post", min 1 (array string_))
    ])
  ].

(** The shape [characterSchema] was built from. *)
Definition character_shape : list (string * ZodType) :=
  match characterSchema with
  | ZodObject shape _ => shape
  | _ => []
  end.

Record ValidationError := mkError {
  path : string;
  message : string;
  code : string
}.

(** [String(seg)] for a path element. *)
Definition seg_string (seg : PathSeg) : string :=
  match seg with
  | Key k => k
  | Idx i => Js.string_of_nat i
  end.

(** [path.join(".")]. *)
Definition join_path (p : list PathSeg) : string :=
  String.concat "." (map seg_string p).

(** One entry of the list [formatZodError] returns. *)
Definition format_issue (err : ZodIssue) : ValidationError :=
  {| path := join_path (issue_path err);
     message := issue_message err;
     code := issue_code err |}.

(** [formatZodError(error)].  Called on a value without an [errors] array
    it throws: [undefined] has no [map]. *)
Definition formatZodError (error : Exception)
  : Completion Exception (list ValidationError) :=
  match error with
  | ZodError errors =>
      Returns (map format_issue errors)
  | _ => Throws (TypeError "Cannot read properties of undefined (reading 'map')")
  end.

(** The two outcomes of a validation. *)
Inductive ValidationResult :=
| Valid (character : json)
| Invalid (errors : list ValidationError).

(** The inner [try]/[catch] of [validateFile]: parse against the schema,
    format the error if it throws. *)
Definition validate (data : json) : Completion Exception ValidationResult :=
  match parse characterSchema data with
  | Returns validatedData => Returns (Valid validatedData)
  | Throws validationError =>
      match formatZodError validationError with
      | Returns errors => Returns (Invalid errors)
      | Throws e => Throws e
      end
  end.

(** The state of the [App] component.  A [File] is a file that could be
    read, with the text that [await file.text()] resolves to; a read that
    fails is added in [Reading.validateFile_reading]. *)
Record File := { text : string }.

Record AppState := {
  file : option File;
  character : option json;
  errors : option (list ValidationError);
  isLoading : bool
}.

Definition invalid_json_error : ValidationError :=
  {| path := "file"; message := "Invalid JSON format"; code := "custom" |}.

Section ValidateFile.

(** [JSON.parse], a builtin of the host: [None] when it throws a
    [SyntaxError], that is, when the text is not valid JSON. *)
Variable JSON_parse : string -> option json.

(** [validateFile()], from the state it is called in to the state it
    leaves once the promise settles, for a file that could be read. *)
Definition validateFile (st : AppState) : AppState :=
  match file st with
  | None => st
  | Some f =>
      let attempt : Completion Exception ValidationResult :=
        match JSON_parse (text f) with
        | None => Throws (Error "SyntaxError")
        | Some data => validate data
        end in
      match attempt with
      | Returns (Valid validatedData) =>
          {| file := file st; character := Some validatedData;
             errors := None; isLoading := false |}
      | Returns (Invalid errs) =>
          {| file := file st; character := None;
             errors := Some errs; isLoading := false |}
      | Throws _ =>
          {| file := file st; character := None;
             errors := Some [invalid_json_error]; isLoading := false |}
      end
  end.

End ValidateFile.

End Schema.

(* ================================================================= *)
(** * src/components/JsonViewer.tsx *)

Module JsonViewer.

(** A non-empty string is truthy. *)
Definition truthy (s : string) : bool :=
  match s with EmptyString => false | String _ _ => true end.

(** The props of [JsonNode]; [name] is [None] for [null].  Where the caller
    leaves them out, [initialExpanded] and [isRoot] are [false] and [path]
    is empty. *)
Record JsonNodeProps := {
  name : option string;
  value : json;
  initialExpanded : bool;
  isRoot : bool;
  path : string
}.

(** [useState(initialExpanded || isRoot)]. *)
Definition initial_isExpanded (p : JsonNodeProps) : bool :=
  initialExpanded p || isRoot p.

(** [Array.isArray(value) ? "array" : typeof value]. *)
Inductive TypeOf := ty_array | ty_object | ty_string | ty_number | ty_boolean.

Definition type_of (value : json) : TypeOf :=
  match value with
  | JArray _ => ty_array
  | JNull => ty_object
  | JObject _ => ty_object
  | JString _ => ty_string
  | JNumber _ => ty_number
  | JBool _ => ty_boolean
  end.

(** [name ? (path ? `${path}.${name}` : name) : path]. *)
Definition fullPath (p : JsonNodeProps) : string :=
  match name p with
  | Some n =>
      if truthy n
      then (if truthy (path p) then (path p ++ "." ++ n)%string else n)
      else path p
  | None => path p
  end.

(** What a [span] shows: text, or a number as React prints it. *)
Inductive Text :=
| Str (s : string)
| Num (n : float).

Record Span := { className : string; content : Text }.

Definition quote : string := String (ascii_of_nat 34) EmptyString.

(** [Array.isArray(value) ? value.length : Object.keys(value).length], the
    count that the summary of an array or an object shows. *)
Definition count (value : json) : nat :=
  match value with
  | JArray items => List.length items
  | JObject props => List.length (Js.keys props)
  | _ => 0
  end.

(** [getValueDisplay()]. *)
Definition getValueDisplay (value : json) : Span :=
  match value with
  | JNull => {| className := "text-gray-500"; content := Str "null" |}
  | JString s =>
      {| className := "text-green-600";
         content := Str (quote ++ s ++ quote)%string |}
  | JNumber n => {| className := "text-blue-600"; content := Num n |}
  | JBool b =>
      {| className := "text-purple-600";
         content := Str (if b then "true" else "false") |}
  | JArray _ =>
      {| className := "text-gray-500";
         content := Str ("Array(" ++ Js.string_of_nat (count value) ++ ")")%string |}
  | JObject _ =>
      {| className := "text-gray-500";
         content := Str ("Object{" ++ Js.string_of_nat (count value) ++ "}")%string |}
  end.

(** [Object.entries(value)]: throws on [null]; a string has one entry per
    character, a number or a boolean none. *)
Fixpoint chars (s : string) : list json :=
  match s with
  | EmptyString => []
  | String c rest => JString (String c EmptyString) :: chars rest
  end.

Definition Object_entries (value : json)
  : Completion string (list (string * json)) :=
  match value with
  | JNull => Throws "TypeError: Cannot convert undefined or null to object"
  | JObject props => Returns props
  | JArray items => Returns (Js.mapi (fun i x => (Js.string_of_nat i, x)) items)
  | JString s => Returns (Js.mapi (fun i x => (Js.string_of_nat i, x)) (chars s))
  | JNumber _ | JBool _ => Returns []
  end.

Definition child (name : string) (value : json) (path : string) : JsonNodeProps :=
  {| name := Some name; value := value;
     initialExpanded := false; isRoot := false; path := path |}.

(** The child nodes of an expanded node, one per array item or property. *)
Definition children_of (p : JsonNodeProps)
  : Completion string (list JsonNodeProps) :=
  match value p with
  | JArray items =>
      Returns
        (Js.mapi
           (fun index item =>
              child (Js.string_of_nat index) item
                    (fullPath p ++ "[" ++ Js.string_of_nat index ++ "]")%string)
           items)
  | v =>
      match Object_entries v with
      | Throws e => Throws e
      | Returns entries =>
          Returns
            (map (fun entry =>
                    let key := fst entry in
                    child key (snd entry)
                          (if truthy (fullPath p)
                           then (fullPath p ++ "." ++ key)%string else key))
                 entries)
      end
  end.

(** The two shapes a node renders to: a plain line, or a clickable header
    followed, while expanded, by the child nodes. *)
Inductive Indicator := TriangleDown | TriangleRight.

Inductive Element :=
| Line (label : option string) (display : Span)
| Header (indicator : Indicator) (label : option string) (display : Span)
         (children : option (list JsonNodeProps)).

(** One render of [JsonNode] with the given props and state. *)
Definition JsonNode (p : JsonNodeProps) (isExpanded : bool)
  : Completion string Element :=
  match type_of (value p) with
  | ty_object | ty_array =>
      if isExpanded
      then match children_of p with
           | Throws e => Throws e
           | Returns nodes =>
               Returns (Header TriangleDown (name p) (getValueDisplay (value p))
                               (Some nodes))
           end
      else Returns (Header TriangleRight (name p) (getValueDisplay (value p)) None)
  | _ => Returns (Line (name p) (getValueDisplay (value p)))
  end.

(** The root node [JsonViewer] creates. *)
Definition JsonViewer (data : json) (initialExpanded : bool) : JsonNodeProps :=
  {| name := None; value := data;
     initialExpanded := initialExpanded; isRoot := true; path := EmptyString |}.

(** [setIsExpanded(!isExpanded)]. *)
Definition toggle (isExpanded : bool) : bool := negb isExpanded.

(** A click on the node.  A plain line has no handler; a header toggles the
    state and the node renders again.  The result is the state after the
    click, or what that render throws. *)
Definition click (p : JsonNodeProps) (isExpanded : bool)
  : Completion string bool :=
  match JsonNode p isExpanded with
  | Throws e => Throws e
  | Returns (Line _ _) => Returns isExpanded
  | Returns (Header _ _ _ _) =>
      match JsonNode p (toggle isExpanded) with
      | Throws e => Throws e
      | Returns _ => Returns (toggle isExpanded)
      end
  end.

(** What the reader of a rendered node sees of its expansion. *)
Definition expandable (e : Element) : bool :=
  match e with Header _ _ _ _ => true | Line _ _ => false end.

Definition visible_children (e : Element) : list JsonNodeProps :=
  match e with
  | Header _ _ _ (Some nodes) => nodes
  | _ => []
  end.

Definition display_of (e : Element) : Span :=
  match e with
  | Line _ display => display
  | Header _ _ display _ => display
  end.

(** Two clicks in a row. *)
Definition click_twice (p : JsonNodeProps) (isExpanded : bool)
  : Completion string bool :=
  match click p isExpanded with
  | Throws e => Throws e
  | Returns next => click p next
  end.

(** The array items or property values of a value, in order. *)
Definition elements (value : json) : list json :=
  match value with
  | JArray items => items
  | JObject props => map snd props
  | _ => []
  end.

Definition is_container (value : json) : bool :=
  match value with
  | JArray _ | JObject _ => true
  | _ => false
  end.

Definition is_scalar (value : json) : bool := negb (is_container value).

End JsonViewer.

(* ================================================================= *)
(** * What a schema means *)

Module Meaning.
Import Zod.

(** The values a schema describes, [None] being an absent value. *)
Fixpoint accepts (s : ZodType) (data : option json) {struct s} : bool :=
  match s with
  | ZodString =>
      match data with Some (JString _) => true | _ => false end
  | ZodOptional innerType =>
      match data with None => true | Some _ => accepts innerType data end
  | ZodArray type minLength =>
      match data with
      | Some (JArray items) =>
          match minLength with
          | Some minimum => Nat.leb minimum (List.length items)
          | None => true
          end
          && forallb (fun item => accepts type (Some item)) items
      | _ => false
      end
  | ZodObject shape _ =>
      match data with
      | Some (JObject props) =>
          forallb (fun entry => accepts (snd entry) (Js.get (fst entry) props))
                  shape
      | _ => false
      end
  | ZodRecord valueType =>
      match data with
      | Some (JObject props) =>
          forallb (fun key => accepts valueType (Js.get key props)) (Js.keys props)
      | _ => false
      end
  end.

(** Schemas without objects: strings, and arrays of such, optional or not. *)
Fixpoint flat (s : ZodType) : bool :=
  match s with
  | ZodString => true
  | ZodArray type _ => flat type
  | ZodOptional innerType => flat innerType
  | ZodObject _ _ | ZodRecord _ => false
  end.

(** The value carries no property that parsing leaves out: no undeclared
    key in an object that strips them, and no key [__proto__] in a
    passthrough object or a record. *)
Definition declared (shape : list (string * ZodType)) (key : string) : bool :=
  existsb (String.eqb key) (map fst shape).

Fixpoint keeps_all_keys (s : ZodType) (data : option json) {struct s} : bool :=
  match s with
  | ZodString => true
  | ZodOptional innerType =>
      match data with None => true | Some _ => keeps_all_keys innerType data end
  | ZodArray type _ =>
      match data with
      | Some (JArray items) =>
          forallb (fun item => keeps_all_keys type (Some item)) items
      | _ => true
      end
  | ZodObject shape unknownKeys =>
      match data with
      | Some (JObject props) =>
          match unknownKeys with
          | strip => forallb (declared shape) (Js.keys props)
          | passthrough => negb (Js.has "__proto__" props)
          end
          && forallb (fun entry =>
                        keeps_all_keys (snd entry) (Js.get (fst entry) props))
                     shape
      | _ => true
      end
  | ZodRecord valueType =>
      match data with
      | Some (JObject props) =>
          negb (Js.has "__proto__" props)
          && forallb (fun key => keeps_all_keys valueType (Js.get key props))
                     (Js.keys props)
      | _ => true
      end
  end.

(** Schemas as an object literal gives them: each key of a shape once, and
    none of them [__proto__]. *)
Fixpoint proper (s : ZodType) : bool :=
  match s with
  | ZodString => true
  | ZodArray type _ => proper type
  | ZodOptional innerType => proper innerType
  | ZodRecord valueType => proper valueType
  | ZodObject shape _ =>
      Js.nodup_keys (map fst shape)
      && negb (declared shape "__proto__")
      && forallb (fun entry => proper (snd entry)) shape
  end.

(** Deep equality of JSON values: arrays item by item, objects property by
    property, whatever the order of the properties. *)
Inductive deep_eq : json -> json -> Prop :=
| deep_null : deep_eq JNull JNull
| deep_bool b : deep_eq (JBool b) (JBool b)
| deep_number n : deep_eq (JNumber n) (JNumber n)
| deep_string s : deep_eq (JString s) (JString s)
| deep_array xs ys : Forall2 deep_eq xs ys -> deep_eq (JArray xs) (JArray ys)
| deep_object a b :
    (forall k, Js.get k a = None <-> Js.get k b = None) ->
    (forall k x y, Js.get k a = Some x -> Js.get k b = Some y -> deep_eq x y) ->
    deep_eq (JObject a) (JObject b).

(** The same for two values that may be absent. *)
Definition deep_eq_opt (a b : option json) : Prop :=
  match a, b with
  | Some x, Some y => deep_eq x y
  | None, None => True
  | _, _ => False
  end.

(** The value found by following a path of keys and indices into a value;
    the outer [None] when the path leaves the value. *)
Fixpoint at_path (p : list PathSeg) (data : option json)
  : option (option json) :=
  match p with
  | [] => Some data
  | Key k :: rest =>
      match data with
      | Some (JObject props) => at_path rest (Js.get k props)
      | _ => None
      end
  | Idx i :: rest =>
      match data with
      | Some (JArray items) =>
          match nth_error items i with
          | Some item => at_path rest (Some item)
          | None => None
          end
      | _ => None
      end
  end.

End Meaning.

(* ================================================================= *)
(** * The validation rules of the specification (section 4.1) *)

Module Rules.

Definition is_string (x : option json) : bool :=
  match x with Some (JString _) => true | _ => false end.

Definition is_object (x : option json) : bool :=
  match x with Some (JObject _) => true | _ => false end.

Definition if_present (rule : option json -> bool) (x : option json) : bool :=
  match x with None => true | Some _ => rule x end.

(** A list whose elements all satisfy [rule]. *)
Definition list_of (rule : option json -> bool) (x : option json) : bool :=
  match x with
  | Some (JArray items) => forallb (fun item => rule (Some item)) items
  | _ => false
  end.

Definition non_empty (x : option json) : bool :=
  match x with Some (JArray (_ :: _)) => true | _ => false end.

Definition string_list (x : option json) : bool := list_of is_string x.

Definition non_empty_string_list (x : option json) : bool :=
  string_list x && non_empty x.

(** The field [k] of a value, absent when the value is not an object. *)
Definition field (k : string) (x : option json) : option json :=
  match x with
  | Some (JObject props) => Js.get k props
  | _ => None
  end.

(** A turn: a [user] string and a [content] object with a [text] string
    and, optionally, an [action] string. *)
Definition turn (x : option json) : bool :=
  is_object x
  && is_string (field "user" x)
  && is_object (field "content" x)
  && is_string (field "text" (field "content" x))
  && if_present is_string (field "action" (field "content" x)).

Definition message_examples (x : option json) : bool :=
  non_empty x && list_of (fun example => non_empty example && list_of turn example) x.

Definition style (x : option json) : bool :=
  is_object x
  && non_empty_string_list (field "all" x)
  && non_empty_string_list (field "chat" x)
  && non_empty_string_list (field "post" x).

(** A map from strings to strings. *)
Definition string_map (x : option json) : bool :=
  match x with
  | Some (JObject props) =>
      forallb (fun key => is_string (Js.get key props)) (Js.keys props)
  | _ => false
  end.

Definition voice (x : option json) : bool :=
  is_object x && is_string (field "model" x).

Definition settings (x : option json) : bool :=
  is_object x
  && if_present string_map (field "secrets" x)
  && if_present voice (field "voice" x).

(** The rules, one per field, in the order the specification gives them. *)
Definition rules : list (string * (option json -> bool)) :=
  [ ("name", is_string);
    ("modelProvider", is_string);
    ("system", if_present is_string);
    ("clients", non_empty_string_list);
    ("bio", non_empty_string_list);
    ("lore", non_empty_string_list);
    ("postExamples", non_empty_string_list);
    ("adjectives", non_empty_string_list);
    ("topics", non_empty_string_list);
    ("messageExamples", message_examples);
    ("style", style);
    ("plugins", if_present string_list);
    ("knowledge", if_present string_list);
    ("settings", if_present settings) ].

Definition holds (v : json) (rule : string * (option json -> bool)) : bool :=
  snd rule (field (fst rule) (Some v)).

(** The value satisfies every rule. *)
Definition satisfies (v : json) : bool :=
  is_object (Some v) && forallb (holds v) rules.

(** Where the value violates a rule, as paths from the root: the empty
    path for a value that is not an object at all, else one key per field
    whose rule fails. *)
Definition violated (v : json) : list (list Zod.PathSeg) :=
  if is_object (Some v)
  then map (fun rule => [Zod.Key (fst rule)])
           (filter (fun rule => negb (holds v rule)) rules)
  else [[]].

(** The fields that hold a string or a list of strings. *)
Definition plain_fields : list string :=
  [ "name"; "modelProvider"; "system"; "clients"; "bio"; "lore";
    "postExamples"; "adjectives"; "topics"; "plugins"; "knowledge" ].

(** The fields the rules name. *)
Definition fields : list string := map fst rules.

(** Every key of the object is one of [allowed]. *)
Definition only_keys (allowed : list string) (x : option json) : bool :=
match x with
| Some (JObject props) =>
    forallb (fun key => existsb (String.eqb key) allowed) (Js.keys props)
| _ => true
end.

Definition lacks_key (k : string) (x : option json) : bool :=
match x with
| Some (JObject props) => negb (Js.has k props)
| _ => true
end.

(** Every element of the list satisfies [rule]. *)
Definition each (rule : option json -> bool) (x : option json) : bool :=
match x with
| Some (JArray items) => forallb (fun item => rule (Some item)) items
| _ => true
end.

(** The objects inside the declared fields hold declared keys only:
    [style], the turns and their [content], and [settings.voice] have no
    other key than those of section 4.1, and neither [settings] nor
    [settings.secrets] has the key [__proto__]. *)
Definition declared_keys_only (v : json) : bool :=
only_keys ["all"; "chat"; "post"] (field "style" (Some v))
&& each (each (fun t =>
                 only_keys ["user"; "content"] t
                 && only_keys ["text"; "action"] (field "content" t)))
        (field "messageExamples" (Some v))
&& lacks_key "__proto__" (field "settings" (Some v))
&& lacks_key "__proto__" (field "secrets" (field "settings" (Some v)))
&& only_keys ["model"] (field "voice" (field "settings" (Some v))).

End Rules.

(* ================================================================= *)
(** * Sample documents and nodes *)

Module Examples.

Definition strings (l : list string) : json := JArray (map JString l).

(** The valid document of section 8 of the specification. *)
Definition bot : list (string * json) :=
[ ("name", JString "Bot");
  ("clients", strings ["discord"]);
  ("modelProvider", JString "openai");
  ("bio", strings ["hi"]);
  ("lore", strings ["l"]);
  ("messageExamples",
    JArray [JArray [JObject [("user", JString "a");
                             ("content", JObject [("text", JString "hey")])]]]);
  ("postExamples", strings ["p"]);
  ("adjectives", strings ["kind"]);
  ("topics", strings ["t"]);
  ("style", JObject [("all", strings ["x"]);
                     ("chat", strings ["y"]);
                     ("post", strings ["z"])]) ].

Definition valid_document : json := JObject bot.

(** The same with [clients] empty. *)
Definition empty_clients : json :=
JObject (Js.set "clients" (JArray []) bot).

(** The same without [name] and [clients]. *)
Definition no_name_no_clients : json :=
JObject (filter (fun kv => negb (String.eqb (fst kv) "name"
                                 || String.eqb (fst kv) "clients")) bot).

(** The same with one more key in [style]. *)
Definition style_with_mood : json :=
JObject (Js.set "style"
           (JObject [("all", strings ["x"]);
                     ("chat", strings ["y"]);
                     ("post", strings ["z"]);
                     ("mood", strings ["calm"])])
           bot).

(** The same, the first turn of the first example lacking its [text]. *)
Definition turn_without_text : json :=
JObject (Js.set "messageExamples"
           (JArray [JArray [JObject [("user", JString "a");
                                     ("content", JObject [])]]])
           bot).

(** The same with a key the schema does not declare, and settings that
    hold two undeclared keys, one of them [__proto__]. *)
Definition with_unknown_keys : json :=
JObject (bot ++ [ ("extra", JBool true);
                  ("settings", JObject [("model", JString "gpt");
                                        ("__proto__", JString "x")]) ]).

(** A stand-in for [JSON.parse] that reads the three literal names only. *)
Definition parse_literal (text : string) : option json :=
if String.eqb text "null" then Some JNull
else if String.eqb text "true" then Some (JBool true)
else if String.eqb text "false" then Some (JBool false)
else None.

(** A file that is not JSON. *)
Definition broken_file : Schema.File := {| Schema.text := "{ not json" |}.

Definition fresh_state (f : Schema.File) : Schema.AppState :=
{| Schema.file := Some f; Schema.character := None;
   Schema.errors := None; Schema.isLoading := false |}.

(** A node for a property [nickname] that is [null], as a child of the root. *)
Definition null_node : JsonViewer.JsonNodeProps :=
JsonViewer.child "nickname" JNull "nickname".

End Examples.

(* ================================================================= *)
(** * More of src/lib/schema.ts and src/components/JsonViewer.tsx *)

Module App.
Import Zod Schema.

(** [handleFileChange(e)]: [e.target.files[0]] is the file chosen, or
    [undefined] when the dialog was left without one. *)
Definition handleFileChange (selectedFile : option File) (st : AppState) : AppState :=
  {| file := selectedFile; character := None; errors := None;
     isLoading := isLoading st |}.

(** The keys of [characterSchema] that are not [.optional()]. *)
Definition is_optional (s : ZodType) : bool :=
  match s with ZodOptional _ => true | _ => false end.

Definition required_keys : list string :=
  map fst (filter (fun e => negb (is_optional (snd e))) character_shape).

(** The type a schema expects, as its [invalid_type] issue names it. *)
Definition expected_type (s : ZodType) : ZodParsedType :=
  match s with
  | ZodString => t_string
  | ZodArray _ _ => t_array
  | ZodObject _ _ | ZodRecord _ => t_object
  | ZodOptional _ => t_undefined
  end.

(** What an issue says about the value it was raised for: that its type is
    not the expected one, or that it is an array shorter than the minimum. *)
Definition raised_for (issue : ZodIssue) (data : option json) : Prop :=
  (issue_code issue = invalid_type
   /\ exists expected,
        In expected [t_string; t_array; t_object]
        /\ getParsedType data <> expected
        /\ issue_message issue = invalid_type_message expected (getParsedType data))
  \/ (issue_code issue = too_small
      /\ exists items minimum,
           data = Some (JArray items)
           /\ List.length items < minimum
           /\ issue_message issue = too_small_array_message minimum).

End App.

Module Tree.
Import JsonViewer.


(** The names of the children of an array or an object: the indices in
    order, or the keys in order. *)
Definition labels (value : json) : list (option string) :=
  match value with
  | JArray items =>
      map (fun i => Some (Js.string_of_nat i)) (seq 0 (List.length items))
  | JObject props => map (fun kv => Some (fst kv)) props
  | _ => []
  end.

End Tree.

(* ================================================================= *)
(** * What parsing keeps of a value, and the faults of a document *)

Module Projection.
Import Zod Meaning Schema.

(** The value with the properties that parsing leaves out removed: an
    object that strips keeps its declared properties, a passthrough object
    also the others, a record all of its own, and none keeps [__proto__].
    Property order is not meant: values are compared with [deep_eq]. *)
Fixpoint kept (s : ZodType) (v : json) {struct s} : json :=
  match s with
  | ZodString => v
  | ZodOptional innerType => kept innerType v
  | ZodArray type _ =>
      match v with
      | JArray items => JArray (map (kept type) items)
      | _ => v
      end
  | ZodObject shape unknownKeys =>
      match v with
      | JObject props =>
          JObject
            (List.concat
               (map (fun e =>
                       match Js.get (fst e) props with
                       | Some x => [(fst e, kept (snd e) x)]
                       | None => []
                       end)
                    shape)
             ++ match unknownKeys with
                | strip => []
                | passthrough =>
                    filter (fun kv => negb (declared shape (fst kv))
                                      && negb (String.eqb (fst kv) "__proto__"))
                           props
                end)
      | _ => v
      end
  | ZodRecord valueType =>
      match v with
      | JObject props =>
          JObject (map (fun kv => (fst kv, kept valueType (snd kv)))
                       (filter (fun kv => negb (String.eqb (fst kv) "__proto__"))
                               props))
      | _ => v
      end
  end.

(** The schema [characterSchema] gives a field. *)
Definition field_schema (k : string) : ZodType :=
  match entry_of character_shape k with
  | Some e => snd e
  | None => ZodString
  end.

(** The part of a field's value that the schema declares. *)
Definition declared_part (k : string) (x : option json) : option json :=
  option_map (kept (field_schema k)) x.

(** The objects inside a field's value hold declared keys only. *)
Definition declared_keys_only_in (k : string) (x : option json) : bool :=
  keeps_all_keys (field_schema k) x.

End Projection.

(** The rules of section 4.1 once more, each giving the places where a
    value breaks it: a dotted path and the kind of fault, [invalid_type]
    for a value that is absent or of the wrong type and [too_small] for a
    list with too few elements.  One entry per rule broken; the rules of a
    list's elements and of an object's fields are independent of each
    other. *)
Module Faults.

Definition fault : Type := (string * string)%type.

Definition wrong_type (path : string) : list fault := [(path, "invalid_type")].

Definition too_short (path : string) : list fault := [(path, "too_small")].

(** The path of the member [name] of the value at [path]. *)
Definition under (path name : string) : string := (path ++ "." ++ name)%string.

Definition rule : Type := string -> option json -> list fault.

Definition a_string : rule :=
  fun path x => if Rules.is_string x then [] else wrong_type path.

Definition if_present (r : rule) : rule :=
  fun path x => match x with None => [] | Some _ => r path x end.

(** A list of at least [minimum] elements, each under the rule [element],
    at the path of its index. *)
Definition a_list (minimum : nat) (element : rule) : rule :=
  fun path x =>
    match x with
    | Some (JArray items) =>
        (if Nat.ltb (List.length items) minimum then too_short path else [])
        ++ List.concat
             (Js.mapi (fun i item =>
                         element (under path (Js.string_of_nat i)) (Some item))
                      items)
    | _ => wrong_type path
    end.

(** An object with the given fields, each under its rule, at the path of
    its key. *)
Definition an_object (fields : list (string * rule)) : rule :=
  fun path x =>
    match x with
    | Some (JObject props) =>
        List.concat
          (map (fun f => snd f (under path (fst f)) (Js.get (fst f) props)) fields)
    | _ => wrong_type path
    end.

(** A map whose values are all under the rule [value]. *)
Definition a_map (value : rule) : rule :=
  fun path x =>
    match x with
    | Some (JObject props) =>
        List.concat
          (map (fun key => value (under path key) (Js.get key props))
               (Js.keys props))
    | _ => wrong_type path
    end.

Definition strings : rule := a_list 0 a_string.

Definition non_empty_strings : rule := a_list 1 a_string.

Definition content : rule :=
  an_object [("text", a_string); ("action", if_present a_string)].

Definition turn : rule := an_object [("user", a_string); ("content", content)].

Definition example : rule := a_list 1 turn.

Definition message_examples : rule := a_list 1 example.

Definition style : rule :=
  an_object [("all", non_empty_strings);
             ("chat", non_empty_strings);
             ("post", non_empty_strings)].

Definition voice : rule := an_object [("model", a_string)].

Definition settings : rule :=
  an_object [("secrets", if_present (a_map a_string));
             ("voice", if_present voice)].

(** The fields of a document with their rules, in the order in which the
    validator reports them. *)
Definition fields : list (string * rule) :=
  [ ("name", a_string);
    ("plugins", if_present strings);
    ("clients", non_empty_strings);
    ("modelProvider", a_string);
    ("settings", if_present settings);
    ("system", if_present a_string);
    ("bio", non_empty_strings);
    ("lore", non_empty_strings);
    ("messageExamples", message_examples);
    ("postExamples", non_empty_strings);
    ("adjectives", non_empty_strings);
    ("topics", non_empty_strings);
    ("knowledge", if_present strings);
    ("style", style) ].

(** The faults of a document: those of its fields, each at the path of its
    name, or the single fault of not being an object, at the empty path. *)
Definition of_document (v : json) : list fault :=
  match v with
  | JObject props =>
      List.concat (map (fun f => snd f (fst f) (Js.get (fst f) props)) fields)
  | _ => wrong_type EmptyString
  end.

(** The place and kind of an error, and of the issue it is made from. *)
Definition of_error (e : Schema.ValidationError) : fault :=
  (Schema.path e, Schema.code e).

Definition of_issue (issue : Zod.ZodIssue) : fault :=
  of_error (Schema.format_issue issue).

(** The issues a schema raises, below the root, are the faults of a rule. *)
Definition renders (s : Zod.ZodType) (r : rule) : Prop :=
  forall p d, p <> [] ->
    map of_issue (snd (Zod._parse s p d)) = r (Schema.join_path p) d.

End Faults.

Module Reading.
Import Schema.

(** [validateFile()] when the file may fail to be read: [await file.text()]
    stands inside the outer [try], so a rejected read ([readable f] false)
    is caught like a syntax error; otherwise [validateFile] goes on with
    the text. *)
Definition validateFile_reading (JSON_parse : string -> option json)
    (readable : File -> bool) (st : AppState) : AppState :=
  match file st with
  | None => st
  | Some f =>
      if readable f
      then validateFile JSON_parse st
      else {| file := file st; character := None;
              errors := Some [invalid_json_error]; isLoading := false |}
  end.

End Reading.

Module MoreExamples.
Import Examples.

(** The document of section 8 with a key the schema does not declare and
    settings that hold secrets, a voice with one more key than [model], and
    two undeclared keys. *)
Definition with_settings : json :=
JObject (bot ++ [ ("extra", JBool true);
                  ("settings",
                   JObject [ ("secrets", JObject [("API_KEY", JString "k")]);
                             ("voice", JObject [("model", JString "m");
                                                ("speed", JString "fast")]);
                             ("model", JString "gpt");
                             ("limits", JObject [("daily", JNull)]) ]) ]).

Definition good_turn : json :=
JObject [("user", JString "a"); ("content", JObject [("text", JString "hey")])].

(** A turn with a [content] that lacks its [text]. *)
Definition mute_turn : json :=
JObject [("user", JString "a"); ("content", JObject [])].

(** A turn without [user], with an [action] that is a number. *)
Definition nameless_turn : json :=
JObject [("content", JObject [("text", JString "hey");
                              ("action", JNumber 1%float)])].

(** The example at index 11 below: a good turn, a turn without [text], a
    turn without [user] whose [action] is a number, and a string where a
    turn should be. *)
Definition faulty_example : json :=
JArray [good_turn; mute_turn; nameless_turn; JString "hello"].

(** Fourteen examples: eleven good ones, then [faulty_example], an empty
    example and [null]. *)
Definition example_list : list json :=
repeat (JArray [good_turn]) 11 ++ [faulty_example; JArray []; JNull].

(** The document of section 8 with these examples. *)
Definition faulty_props : list (string * json) :=
Js.set "messageExamples" (JArray example_list) bot.

Definition faulty_examples : json := JObject faulty_props.

End MoreExamples.

(* ================================================================= *)
(** * Facts about the parser *)

Module JsFacts.

Lemma get_set k k' v o :
  Js.get k (Js.set k' v o) = if String.eqb k k' then Some v else Js.get k o.
Proof.
  induction o as [| [k0 v0] rest IH]; simpl.
  - reflexivity.
  - destruct (String.eqb k' k0) eqn:E0; simpl.
    + apply String.eqb_eq in E0. subst k0.
      destruct (String.eqb k k'); reflexivity.
    + rewrite IH. destruct (String.eqb k k0) eqn:E1; [|reflexivity].
      apply String.eqb_eq in E1. subst k0.
      rewrite String.eqb_sym, E0. reflexivity.
Qed.

Lemma has_get k o :
  Js.has k o = match Js.get k o with Some _ => true | None => false end.
Proof.
  unfold Js.has. induction o as [| [k0 v0] rest IH]; simpl; [reflexivity|].
  destruct (String.eqb k k0); [reflexivity | exact IH].
Qed.

Lemma has_keys k o : Js.has k o = existsb (String.eqb k) (Js.keys o).
Proof. reflexivity. Qed.

Lemma get_none_not_key k o :
  existsb (String.eqb k) (Js.keys o) = false -> Js.get k o = None.
Proof.
  intros H. pose proof (has_get k o) as E. unfold Js.has, Js.keys in *.
  rewrite H in E. destruct (Js.get k o); [discriminate | reflexivity].
Qed.

Lemma mapi_from_length {A B} (f : nat -> A -> B) n xs :
  List.length (Js.mapi_from f n xs) = List.length xs.
Proof. revert n. induction xs; simpl; intros; [|rewrite IHxs]; reflexivity. Qed.

Lemma mapi_from_In {A B} (f : nat -> A -> B) n xs y :
  In y (Js.mapi_from f n xs) ->
  exists i x, nth_error xs i = Some x /\ y = f (n + i) x.
Proof.
  revert n. induction xs as [| x rest IH]; simpl; intros n H; [contradiction|].
  destruct H as [H | H].
  - exists 0, x. rewrite Nat.add_0_r. auto.
  - destruct (IH _ H) as (i & x' & Hn & Hy).
    exists (S i), x'. rewrite Nat.add_succ_r. auto.
Qed.

Lemma mapi_from_Forall2 {A B} (f : nat -> A -> B) (R : B -> A -> Prop) n xs :
  (forall i x, In x xs -> R (f i x) x) ->
  Forall2 R (Js.mapi_from f n xs) xs.
Proof.
  revert n. induction xs as [| x rest IH]; simpl; intros n H; constructor.
  - apply H. now left.
  - apply IH. intros i y Hy. apply H. now right.
Qed.

End JsFacts.

Module ZodFacts.
Import Zod Meaning.

Lemma ZodType_nested_ind (P : ZodType -> Prop) :
  P ZodString ->
  (forall t m, P t -> P (ZodArray t m)) ->
  (forall shape uk, Forall (fun e => P (snd e)) shape -> P (ZodObject shape uk)) ->
  (forall t, P t -> P (ZodRecord t)) ->
  (forall t, P t -> P (ZodOptional t)) ->
  forall s, P s.
Proof.
  intros Hstring Harray Hobject Hrecord Hoptional.
  fix IH 1. intros [ | t m | shape uk | t | t ].
  - exact Hstring.
  - apply Harray, IH.
  - apply Hobject. revert shape. fix IHshape 1. intros [| e rest].
    + constructor.
    + constructor; [apply IH | apply IHshape].
  - apply Hrecord, IH.
  - apply Hoptional, IH.
Qed.

Lemma json_nested_ind (P : json -> Prop) :
  P JNull ->
  (forall b, P (JBool b)) ->
  (forall n, P (JNumber n)) ->
  (forall s, P (JString s)) ->
  (forall items, Forall P items -> P (JArray items)) ->
  (forall props, Forall (fun kv => P (snd kv)) props -> P (JObject props)) ->
  forall v, P v.
Proof.
  intros Hnull Hbool Hnumber Hstring Harray Hobject.
  fix IH 1. intros [ | b | n | s | items | props ].
  - exact Hnull.
  - apply Hbool.
  - apply Hnumber.
  - apply Hstring.
  - apply Harray. revert items. fix IHitems 1. intros [| x rest].
    + constructor.
    + constructor; [apply IH | apply IHitems].
  - apply Hobject. revert props. fix IHprops 1. intros [| kv rest].
    + constructor.
    + constructor; [apply IH | apply IHprops].
Qed.

(** ** Deep equality *)

Lemma get_In k o x : Js.get k o = Some x -> In (k, x) o.
Proof.
  induction o as [| [k0 v0] rest IH]; simpl; [discriminate|].
  destruct (String.eqb k k0) eqn:E.
  - apply String.eqb_eq in E. intros [= ->]. subst. now left.
  - intros H. right. auto.
Qed.

Lemma deep_eq_refl v : deep_eq v v.
Proof.
  induction v as [ | | | | items IH | props IH ] using json_nested_ind;
    try constructor.
  - induction IH; constructor; assumption.
  - tauto.
  - intros k x y Hx Hy. rewrite Hx in Hy. injection Hy as <-.
    apply get_In in Hx. rewrite Forall_forall in IH. apply (IH _ Hx).
Qed.

Lemma deep_eq_opt_refl d : deep_eq_opt d d.
Proof. destruct d; simpl; [apply deep_eq_refl | exact I]. Qed.

Lemma deep_object_by_key a b :
  (forall k, deep_eq_opt (Js.get k a) (Js.get k b)) ->
  deep_eq (JObject a) (JObject b).
Proof.
  intros H. constructor.
  - intros k. specialize (H k). unfold deep_eq_opt in H.
    destruct (Js.get k a), (Js.get k b); split; intros; try discriminate;
      try contradiction; reflexivity.
  - intros k x y Hx Hy. specialize (H k). rewrite Hx, Hy in H. exact H.
Qed.

(** ** Merging parsed items and properties *)

Lemma mergeArray_from_OK results : forall dirty acc r,
  mergeArray_from dirty results acc = OK r ->
  dirty = false /\ Forall is_OK results.
Proof.
  induction results as [| [v | v |] rest IH]; simpl; intros dirty acc r H.
  - destruct dirty; simpl in H; [discriminate|]. split; [reflexivity | constructor].
  - destruct v as [x|]; apply IH in H as [-> HF]; split; auto;
      constructor; auto; eexists; reflexivity.
  - destruct v as [x|]; apply IH in H as [? _]; discriminate.
  - discriminate.
Qed.

Lemma mergeArray_from_values results xs : forall dirty acc,
  Forall2 (fun r x => r = OK (Some x)) results xs ->
  mergeArray_from dirty results acc = with_status dirty (Some (JArray (acc ++ xs))).
Proof.
  intros dirty acc H. revert dirty acc.
  induction H as [| r x results xs Hr _ IH]; simpl; intros dirty acc.
  - rewrite app_nil_r. reflexivity.
  - subst r. rewrite IH, <- app_assoc. reflexivity.
Qed.

Lemma mergeArray_from_defined results : forall dirty acc,
  mergeArray_from dirty results acc = INVALID
  \/ exists d xs, mergeArray_from dirty results acc = with_status d (Some (JArray xs)).
Proof.
  induction results as [| [[x|] | [x|] |] rest IH]; simpl; intros dirty acc; auto.
  right. eauto.
Qed.

Lemma mergeObjectSync_from_OK pairs : forall dirty acc r,
  mergeObjectSync_from dirty pairs acc = OK r ->
  dirty = false /\ Forall (fun pair => is_OK (snd (fst pair))) pairs.
Proof.
  induction pairs as [| [[key value] alwaysSet] rest IH]; simpl; intros dirty acc r H.
  - destruct dirty; simpl in H; [discriminate|]. split; [reflexivity | constructor].
  - destruct value as [v | v |]; [| |discriminate]; apply IH in H as [Hd HF].
    + rewrite orb_false_r in Hd. subst. split; auto.
      constructor; auto. simpl. eexists; reflexivity.
    + simpl in Hd. rewrite orb_true_r in Hd. discriminate.
Qed.

Lemma mergeObjectSync_from_defined pairs : forall dirty acc,
  mergeObjectSync_from dirty pairs acc = INVALID
  \/ exists d out, mergeObjectSync_from dirty pairs acc = with_status d (Some (JObject out)).
Proof.
  induction pairs as [| [[key value] alwaysSet] rest IH]; simpl; intros dirty acc.
  - right. eauto.
  - destruct value; auto.
Qed.

(** When every pair is valid and pairs sharing a key share their value
    ([g key]), the merged object maps a key to that value, unless the key is
    [__proto__] or belongs to no pair. *)
Lemma mergeObjectSync_from_values (g : string -> option json) pairs : forall acc,
  (forall pair, In pair pairs -> snd (fst pair) = OK (g (fst (fst pair)))) ->
  exists out,
    mergeObjectSync_from false pairs acc = OK (Some (JObject out))
    /\ forall k,
         Js.get k out =
           if existsb (String.eqb k) (map (fun pair => fst (fst pair)) pairs)
              && negb (String.eqb k "__proto__")
           then match g k with Some x => Some x | None => Js.get k acc end
           else Js.get k acc.
Proof.
  induction pairs as [| [[key value] alwaysSet] rest IH]; intros acc Hg.
  - exists acc. split; reflexivity.
  - pose proof (Hg _ (or_introl eq_refl)) as Hv. simpl in Hv. subst value.
    simpl mergeObjectSync_from.
    match goal with |- context [mergeObjectSync_from _ rest ?w] =>
      destruct (IH w) as (out & Hout & Hget) end.
    { intros pair Hin. apply Hg. now right. }
    exists out. split; [exact Hout|].
    intros k. rewrite Hget. simpl map. simpl existsb.
    destruct (String.eqb k key) eqn:Ek.
    + apply String.eqb_eq in Ek. subst key. simpl orb.
      destruct (String.eqb k "__proto__") eqn:Ep; simpl.
      * rewrite andb_false_r. reflexivity.
      * rewrite andb_true_r.
        destruct (g k) as [x|] eqn:Egk; simpl.
        -- rewrite JsFacts.get_set, String.eqb_refl.
           destruct (existsb _ _); reflexivity.
        -- destruct alwaysSet; destruct (existsb _ _); reflexivity.
    + simpl orb.
      assert (Hacc : Js.get k
        (if negb (String.eqb key "__proto__")
            && (match g key with Some _ => true | None => false end || alwaysSet)
         then match g key with Some x => Js.set key x acc | None => acc end
         else acc) = Js.get k acc).
      { destruct (negb _ && _); [|reflexivity].
        destruct (g key); [|reflexivity].
        rewrite JsFacts.get_set, Ek. reflexivity. }
      rewrite Hacc. reflexivity.
Qed.

Lemma mergeObjectSync_from_all_OK pairs : forall acc,
  Forall (fun pair : Pair => is_OK (snd (fst pair))) pairs ->
  exists out, mergeObjectSync_from false pairs acc = OK (Some (JObject out)).
Proof.
  induction pairs as [| [[key value] alwaysSet] rest IH]; intros acc H.
  - exists acc. reflexivity.
  - inversion H as [| ? ? [v Hv] Hrest]; subst. simpl in Hv. subst value.
    simpl. apply IH, Hrest.
Qed.

(** ** The parser, one schema at a time *)

Lemma parse_object_eq shape uk p props :
  _parse (ZodObject shape uk) p (Some (JObject props)) =
    (mergeObjectSync false
       (map (field_pair p props) shape
        ++ match uk with
           | passthrough => extra_pairs (map fst shape) props
           | strip => []
           end),
     List.concat (map (field_issues p props) shape)).
Proof. simpl. rewrite !map_map. reflexivity. Qed.

Lemma parse_record_eq t p props :
  _parse (ZodRecord t) p (Some (JObject props)) =
    (mergeObjectSync false
       (map (fun key => field_pair p props (key, t)) (Js.keys props)),
     List.concat (map (fun key => field_issues p props (key, t)) (Js.keys props))).
Proof. simpl. rewrite !map_map. reflexivity. Qed.

Lemma parse_array_eq type minLength p items :
  _parse (ZodArray type minLength) p (Some (JArray items)) =
    let small :=
      match minLength with
      | Some minimum =>
          if Nat.ltb (List.length items) minimum
          then [too_small_issue p minimum] else []
      | None => []
      end in
    (mergeArray (match small with [] => false | _ => true end)
                (map fst (Js.mapi (item_result type p) items)),
     small ++ List.concat (map snd (Js.mapi (item_result type p) items))).
Proof. reflexivity. Qed.

Lemma mergeArray_values xs dirty :
  mergeArray dirty (map (fun x => OK (Some x)) xs)
  = with_status dirty (Some (JArray xs)).
Proof.
  unfold mergeArray. rewrite (mergeArray_from_values _ xs); [reflexivity|].
  induction xs; constructor; auto.
Qed.

(** The items of an array that all parse to a value. *)
Lemma array_items type p items :
  (forall i item, In item items ->
     exists x, item_result type p i item = (OK (Some x), [])) ->
  forall n, exists xs,
    map fst (Js.mapi_from (item_result type p) n items)
      = map (fun x => OK (Some x)) xs
    /\ List.concat (map snd (Js.mapi_from (item_result type p) n items)) = []
    /\ Forall2 (fun x item =>
                  exists i, item_result type p i item = (OK (Some x), []))
               xs items.
Proof.
  induction items as [| item rest IH]; intros H n.
  - exists []. repeat split. constructor.
  - destruct (H n item (or_introl eq_refl)) as [x Hx].
    destruct (IH (fun i y Hy => H i y (or_intror Hy)) (S n)) as (xs & E1 & E2 & F).
    exists (x :: xs). simpl. rewrite Hx, E1, E2. simpl. repeat split.
    constructor; eauto.
Qed.

(** A value the schema describes parses to a value, without issues; where
    the schema has no objects the value comes back as it is. *)
Lemma parse_accepted s : forall p d,
  accepts s d = true ->
  exists out,
    _parse s p d = (OK out, [])
    /\ (d <> None -> out <> None)
    /\ (flat s = true -> out = d).
Proof.
  induction s as [ | type minLength IH | shape uk IH | type IH | inner IH ]
    using ZodType_nested_ind; intros p d Hacc.
  - destruct d as [[]|]; try discriminate. simpl. eauto.
  - destruct d as [[ | | | | items | ]|]; try discriminate.
    simpl in Hacc. apply andb_true_iff in Hacc as [Hmin Hitems].
    rewrite forallb_forall in Hitems.
    destruct (array_items type p items) with (n := 0) as (xs & E1 & E2 & F).
    { intros i item Hin. destruct (IH (p ++ [Idx i]) (Some item) (Hitems _ Hin))
        as (out & Hout & Hdef & _).
      destruct out as [x|]; [|exfalso; apply Hdef; [discriminate | reflexivity]].
      exists x. exact Hout. }
    rewrite parse_array_eq. unfold Js.mapi. cbv zeta. rewrite E1, E2.
    assert (Hsmall : match minLength with
                     | Some minimum =>
                         if Nat.ltb (List.length items) minimum
                         then [too_small_issue p minimum] else []
                     | None => []
                     end = []).
    { destruct minLength as [m|]; [|reflexivity].
      apply Nat.leb_le in Hmin. destruct (Nat.ltb_spec (List.length items) m);
        [lia | reflexivity]. }
    rewrite Hsmall, mergeArray_values. simpl.
    eexists. split; [reflexivity|]. split; [discriminate|].
    intros Hflat. do 2 f_equal.
    clear - F Hflat IH Hitems. induction F as [| x item xs items [i Hx] _ IHF].
    + reflexivity.
    + f_equal.
      * destruct (IH (p ++ [Idx i]) (Some item)) as (out & Hout & _ & Heq).
        { apply Hitems. now left. }
        unfold item_result in Hx. rewrite Hx in Hout. injection Hout as <-.
        specialize (Heq Hflat). now injection Heq.
      * apply IHF. intros y Hy. apply Hitems. now right.
  - destruct d as [[ | | | | | props ]|]; try discriminate.
    simpl in Hacc. rewrite forallb_forall in Hacc. rewrite Forall_forall in IH.
    rewrite parse_object_eq.
    assert (Hissues : List.concat (map (field_issues p props) shape) = []).
    { apply concat_nil_Forall, Forall_map, Forall_forall. intros e He.
      unfold field_issues.
      destruct (IH e He (p ++ [Key (fst e)]) (Js.get (fst e) props) (Hacc e He))
        as (out & -> & _). reflexivity. }
    rewrite Hissues.
    destruct (mergeObjectSync_from_all_OK
      (map (field_pair p props) shape
       ++ match uk with
          | passthrough => extra_pairs (map fst shape) props
          | strip => []
          end) []) as [out Hout].
    { apply Forall_app. split.
      - apply Forall_map, Forall_forall. intros e He. unfold field_pair. simpl.
        destruct (IH e He (p ++ [Key (fst e)]) (Js.get (fst e) props) (Hacc e He))
          as (o & -> & _). eexists; reflexivity.
      - destruct uk; [constructor|]. unfold extra_pairs.
        apply Forall_map, Forall_forall. intros k _. eexists; reflexivity. }
    unfold mergeObjectSync. rewrite Hout.
    eexists. split; [reflexivity|]. split; [discriminate | discriminate].
  - destruct d as [[ | | | | | props ]|]; try discriminate.
    simpl in Hacc. rewrite forallb_forall in Hacc.
    rewrite parse_record_eq.
    assert (Hissues : List.concat
              (map (fun key => field_issues p props (key, type)) (Js.keys props)) = []).
    { apply concat_nil_Forall, Forall_map, Forall_forall. intros k Hk.
      unfold field_issues. simpl.
      destruct (IH (p ++ [Key k]) (Js.get k props) (Hacc k Hk)) as (out & -> & _).
      reflexivity. }
    rewrite Hissues.
    destruct (mergeObjectSync_from_all_OK
      (map (fun key => field_pair p props (key, type)) (Js.keys props)) [])
      as [out Hout].
    { apply Forall_map, Forall_forall. intros k Hk. unfold field_pair. simpl.
      destruct (IH (p ++ [Key k]) (Js.get k props) (Hacc k Hk)) as (o & -> & _).
      eexists; reflexivity. }
    unfold mergeObjectSync. rewrite Hout.
    eexists. split; [reflexivity|]. split; [discriminate | discriminate].
  - destruct d as [x|].
    + simpl in Hacc |- *. apply IH. exact Hacc.
    + simpl. exists None. repeat split. intros H; now elim H.
Qed.

Lemma forallb_false_In {A} (f : A -> bool) l :
  forallb f l = false -> exists x, In x l /\ f x = false.
Proof.
  induction l as [| a l IH]; simpl; [discriminate|].
  destruct (f a) eqn:E; simpl; intros H.
  - destruct (IH H) as (x & Hx & Hf). eauto.
  - eauto.
Qed.

Lemma concat_not_nil {A} (l : list A) ls :
  In l ls -> l <> [] -> List.concat ls <> [].
Proof.
  intros Hin Hl Hc. apply Hl.
  apply concat_nil_Forall in Hc. rewrite Forall_forall in Hc. auto.
Qed.

Lemma mapi_from_nth {A B} (f : nat -> A -> B) xs : forall n i x,
  nth_error xs i = Some x -> In (f (n + i) x) (Js.mapi_from f n xs).
Proof.
  induction xs as [| a rest IH]; intros n [| i] x H; simpl in *; try discriminate.
  - injection H as ->. rewrite Nat.add_0_r. now left.
  - right. rewrite Nat.add_succ_r. apply (IH (S n)). exact H.
Qed.

(** A value the schema does not describe raises an issue, and the parse is
    not valid. *)
Lemma parse_rejected s : forall p d,
  accepts s d = false ->
  snd (_parse s p d) <> [] /\ forall out, fst (_parse s p d) <> OK out.
Proof.
  induction s as [ | type minLength IH | shape uk IH | type IH | inner IH ]
    using ZodType_nested_ind; intros p d Hacc.
  - destruct d as [[]|]; try discriminate; simpl; split; discriminate.
  - destruct d as [[ | | | | items | ]|];
      try (simpl; split; discriminate).
    rewrite parse_array_eq. cbv zeta. simpl in Hacc.
    apply andb_false_iff in Hacc as [Hmin | Hitems].
    + destruct minLength as [m|]; [|discriminate].
      apply Nat.leb_gt in Hmin. apply Nat.ltb_lt in Hmin. rewrite Hmin.
      simpl. split; [discriminate|].
      intros out H. apply mergeArray_from_OK in H as [? _]. discriminate.
    + apply forallb_false_In in Hitems as (item & Hin & Hitem).
      apply In_nth_error in Hin as [i Hi].
      destruct (IH (p ++ [Idx i]) (Some item) Hitem) as [Hiss Hres].
      pose proof (mapi_from_nth (item_result type p) items 0 i item Hi) as Hmem.
      simpl in Hmem. split; simpl.
      * intros H. apply app_eq_nil in H as [_ H]. revert H.
        apply (concat_not_nil (snd (item_result type p i item))); [|exact Hiss].
        apply in_map. exact Hmem.
      * intros out H. apply mergeArray_from_OK in H as [_ H].
        rewrite Forall_forall in H.
        destruct (H (fst (item_result type p i item))) as [v Hv].
        { apply in_map. exact Hmem. }
        apply (Hres v). exact Hv.
  - destruct d as [[ | | | | | props ]|];
      try (simpl; split; discriminate).
    rewrite parse_object_eq. simpl in Hacc.
    apply forallb_false_In in Hacc as (e & Hin & He).
    rewrite Forall_forall in IH.
    destruct (IH e Hin (p ++ [Key (fst e)]) (Js.get (fst e) props) He) as [Hiss Hres].
    split; simpl.
    + apply (concat_not_nil (field_issues p props e)); [|exact Hiss].
      apply in_map. exact Hin.
    + intros out H. apply mergeObjectSync_from_OK in H as [_ H].
      rewrite Forall_forall in H.
      destruct (H (field_pair p props e)) as [v Hv].
      { apply in_or_app. left. apply in_map. exact Hin. }
      apply (Hres v). exact Hv.
  - destruct d as [[ | | | | | props ]|];
      try (simpl; split; discriminate).
    rewrite parse_record_eq. simpl in Hacc.
    apply forallb_false_In in Hacc as (k & Hin & Hk).
    destruct (IH (p ++ [Key k]) (Js.get k props) Hk) as [Hiss Hres].
    split; simpl.
    + apply (concat_not_nil (field_issues p props (k, type))); [|exact Hiss].
      apply (in_map (fun key => field_issues p props (key, type))). exact Hin.
    + intros out H. apply mergeObjectSync_from_OK in H as [_ H].
      rewrite Forall_forall in H.
      destruct (H (field_pair p props (k, type))) as [v Hv].
      { apply (in_map (fun key => field_pair p props (key, type))). exact Hin. }
      apply (Hres v). exact Hv.
  - destruct d as [x|]; [|discriminate]. simpl in Hacc |- *. apply IH. exact Hacc.
Qed.

(** The value parsed from a value is never [undefined]. *)
Lemma parse_value_defined s : forall p x,
  fst (_parse s p (Some x)) = INVALID
  \/ exists d out, fst (_parse s p (Some x)) = with_status d (Some out).
Proof.
  induction s as [ | type minLength IH | shape uk IH | type IH | inner IH ]
    using ZodType_nested_ind; intros p x.
  - destruct x; simpl; auto. right. exists false. eexists. reflexivity.
  - destruct x as [ | | | | items | ]; simpl; auto.
    match goal with |- context [mergeArray ?d ?r] =>
      destruct (mergeArray_from_defined r d []) as [H | (d' & xs & H)] end;
      unfold mergeArray; rewrite H; eauto.
  - destruct x as [ | | | | | props ]; simpl; auto.
    match goal with |- context [mergeObjectSync ?d ?r] =>
      destruct (mergeObjectSync_from_defined r d []) as [H | (d' & xs & H)] end;
      unfold mergeObjectSync; rewrite H; eauto.
  - destruct x as [ | | | | | props ]; simpl; auto.
    match goal with |- context [mergeObjectSync ?d ?r] =>
      destruct (mergeObjectSync_from_defined r d []) as [H | (d' & xs & H)] end;
      unfold mergeObjectSync; rewrite H; eauto.
  - simpl. apply IH.
Qed.

(** Every issue sits at a path that extends the path of the parse by keys
    and indices that lead, inside the value parsed, to the value the issue
    is about. *)
Lemma issue_paths s : forall p d issue,
  In issue (snd (_parse s p d)) ->
  exists rest data, issue_path issue = p ++ rest /\ at_path rest d = Some data.
Proof.
  induction s as [ | type minLength IH | shape uk IH | type IH | inner IH ]
    using ZodType_nested_ind; intros p d issue Hin.
  - exists [], d. rewrite app_nil_r.
    destruct d as [[]|]; simpl in Hin; try contradiction;
      destruct Hin as [<- | []]; auto.
  - destruct d as [[ | | | | items | ]|].
    all: try (simpl in Hin; destruct Hin as [<- | []]; eexists [], _;
              rewrite app_nil_r; split; reflexivity).
    rewrite parse_array_eq in Hin. cbv zeta in Hin. simpl in Hin.
    apply in_app_or in Hin as [Hin | Hin].
    + exists [], (Some (JArray items)). rewrite app_nil_r.
      destruct minLength as [m|]; [|contradiction].
      destruct (Nat.ltb _ _); [|contradiction].
      destruct Hin as [<- | []]. auto.
    + apply in_concat in Hin as (l & Hl & Hin).
      apply in_map_iff in Hl as (r & <- & Hr).
      apply JsFacts.mapi_from_In in Hr as (i & item & Hi & ->). simpl in Hin.
      destruct (IH _ _ _ Hin) as (rest & data & Hp & Hat).
      exists (Idx i :: rest), data. rewrite Hp, <- app_assoc. simpl.
      rewrite Hi. auto.
  - destruct d as [[ | | | | | props ]|].
    all: try (simpl in Hin; destruct Hin as [<- | []]; eexists [], _;
              rewrite app_nil_r; split; reflexivity).
    rewrite parse_object_eq in Hin. simpl in Hin.
    apply in_concat in Hin as (l & Hl & Hin).
    apply in_map_iff in Hl as (e & <- & He).
    rewrite Forall_forall in IH.
    destruct (IH e He _ _ _ Hin) as (rest & data & Hp & Hat).
    exists (Key (fst e) :: rest), data. rewrite Hp, <- app_assoc. auto.
  - destruct d as [[ | | | | | props ]|].
    all: try (simpl in Hin; destruct Hin as [<- | []]; eexists [], _;
              rewrite app_nil_r; split; reflexivity).
    rewrite parse_record_eq in Hin. simpl in Hin.
    apply in_concat in Hin as (l & Hl & Hin).
    apply in_map_iff in Hl as (k & <- & Hk).
    destruct (IH _ _ _ Hin) as (rest & data & Hp & Hat).
    exists (Key k :: rest), data. rewrite Hp, <- app_assoc. auto.
  - destruct d as [x|]; simpl in Hin; [|contradiction].
    apply IH. exact Hin.
Qed.

(** ** The properties of a parsed object *)

Lemma entry_of_In shape e :
  Js.nodup_keys (map fst shape) = true -> In e shape ->
  entry_of shape (fst e) = Some e.
Proof.
  unfold entry_of. induction shape as [| a rest IH]; simpl; [contradiction|].
  intros Hnd [-> | Hin].
  - rewrite String.eqb_refl. reflexivity.
  - apply andb_true_iff in Hnd as [Ha Hrest].
    destruct (String.eqb (fst e) (fst a)) eqn:E; [|auto].
    apply String.eqb_eq in E. exfalso.
    apply negb_true_iff in Ha. rewrite <- not_true_iff_false in Ha. apply Ha.
    apply existsb_exists. exists (fst e). split.
    + apply in_map. exact Hin.
    + rewrite E. apply String.eqb_refl.
Qed.

Lemma entry_of_Some shape k e :
  entry_of shape k = Some e -> In e shape /\ fst e = k.
Proof.
  unfold entry_of. intros H. apply find_some in H as [Hin E].
  apply String.eqb_eq in E. auto.
Qed.

Lemma entry_of_declared shape k :
  declared shape k = match entry_of shape k with Some _ => true | None => false end.
Proof.
  unfold declared, entry_of. induction shape as [| a rest IH]; simpl; [reflexivity|].
  destruct (String.eqb k (fst a)); [reflexivity | exact IH].
Qed.

Lemma option_eta (o : option json) :
  match o with Some x => Some x | None => None end = o.
Proof. destruct o; reflexivity. Qed.

Lemma existsb_filter_key (f : string -> bool) k keys :
  existsb (String.eqb k) (filter f keys) = f k && existsb (String.eqb k) keys.
Proof.
  induction keys as [| a rest IH]; simpl; [now rewrite andb_false_r|].
  destruct (f a) eqn:Ea; simpl; rewrite IH.
  - destruct (String.eqb k a) eqn:E; simpl.
    + apply String.eqb_eq in E. subst a. rewrite Ea. reflexivity.
    + reflexivity.
  - destruct (String.eqb k a) eqn:E; simpl; [|reflexivity].
    apply String.eqb_eq in E. subst a. rewrite Ea. reflexivity.
Qed.

(** An object the schema describes parses to an object that holds, for each
    declared key, the value parsed from that property and, when the object
    is a passthrough, each other property as it is; never [__proto__]. *)
Lemma parse_object_fields shape uk p props :
  Js.nodup_keys (map fst shape) = true ->
  accepts (ZodObject shape uk) (Some (JObject props)) = true ->
  exists out,
    _parse (ZodObject shape uk) p (Some (JObject props)) = (OK (Some (JObject out)), [])
    /\ forall k,
         Js.get k out =
           if String.eqb k "__proto__" then None
           else match entry_of shape k with
                | Some e =>
                    value_of (fst (_parse (snd e) (p ++ [Key k]) (Js.get k props)))
                | None =>
                    match uk with
                    | strip => None
                    | passthrough => Js.get k props
                    end
                end.
Proof.
  intros Hnd Hacc.
  destruct (parse_accepted _ p _ Hacc) as (out0 & Hparse & _).
  rewrite parse_object_eq in Hparse |- *.
  injection Hparse as _ Hissues. rewrite Hissues.
  simpl in Hacc. rewrite forallb_forall in Hacc.
  set (g := fun k =>
              match entry_of shape k with
              | Some e => value_of (fst (_parse (snd e) (p ++ [Key k]) (Js.get k props)))
              | None => Js.get k props
              end).
  destruct (mergeObjectSync_from_values g
    (map (field_pair p props) shape
     ++ match uk with
        | passthrough => extra_pairs (map fst shape) props
        | strip => []
        end) []) as (out & Hout & Hget).
  { intros pair Hin. apply in_app_or in Hin as [Hin | Hin].
    - apply in_map_iff in Hin as (e & <- & He). unfold field_pair, g. simpl.
      rewrite (entry_of_In _ _ Hnd He).
      destruct (parse_accepted (snd e) (p ++ [Key (fst e)]) (Js.get (fst e) props)
                  (Hacc e He)) as (o & -> & _). reflexivity.
    - destruct uk; [contradiction|]. unfold extra_pairs in Hin.
      apply in_map_iff in Hin as (k & <- & Hk). apply filter_In in Hk as [_ Hk].
      unfold g. simpl. fold (declared shape k) in Hk.
      rewrite entry_of_declared in Hk. destruct (entry_of shape k); [discriminate|].
      reflexivity. }
  exists out. unfold mergeObjectSync. rewrite Hout. split; [reflexivity|].
  intros k. rewrite Hget. simpl Js.get. rewrite option_eta.
  rewrite map_app, map_map, existsb_app. simpl fst.
  change (existsb (String.eqb k) (map (fun x => fst x) shape)) with (declared shape k).
  destruct (String.eqb k "__proto__"); [now rewrite andb_false_r|].
  rewrite andb_true_r. unfold g. rewrite entry_of_declared.
  destruct (entry_of shape k) as [e|] eqn:Ee; [reflexivity|]. simpl.
  destruct uk; [reflexivity|].
  unfold extra_pairs. rewrite map_map. simpl. rewrite map_id.
  rewrite existsb_filter_key. fold (declared shape k).
  rewrite entry_of_declared, Ee. simpl.
  destruct (existsb (String.eqb k) (Js.keys props)) eqn:Ek; [reflexivity|].
  symmetry. apply JsFacts.get_none_not_key. exact Ek.
Qed.

(** The same for a record. *)
Lemma parse_record_fields t p props :
  accepts (ZodRecord t) (Some (JObject props)) = true ->
  exists out,
    _parse (ZodRecord t) p (Some (JObject props)) = (OK (Some (JObject out)), [])
    /\ forall k,
         Js.get k out =
           if String.eqb k "__proto__" then None
           else if Js.has k props
                then value_of (fst (_parse t (p ++ [Key k]) (Js.get k props)))
                else None.
Proof.
  intros Hacc.
  destruct (parse_accepted _ p _ Hacc) as (out0 & Hparse & _).
  rewrite parse_record_eq in Hparse |- *.
  injection Hparse as _ Hissues. rewrite Hissues.
  simpl in Hacc. rewrite forallb_forall in Hacc.
  destruct (mergeObjectSync_from_values
    (fun k => value_of (fst (_parse t (p ++ [Key k]) (Js.get k props))))
    (map (fun key => field_pair p props (key, t)) (Js.keys props)) [])
    as (out & Hout & Hget).
  { intros pair Hin. apply in_map_iff in Hin as (k & <- & Hk).
    unfold field_pair. simpl.
    destruct (parse_accepted t (p ++ [Key k]) (Js.get k props) (Hacc k Hk))
      as (o & -> & _). reflexivity. }
  exists out. unfold mergeObjectSync. rewrite Hout. split; [reflexivity|].
  intros k. rewrite Hget. simpl Js.get. rewrite option_eta.
  rewrite map_map. simpl. rewrite map_id. fold (Js.has k props).
  rewrite JsFacts.has_keys.
  destruct (String.eqb k "__proto__"); [now rewrite andb_false_r|].
  rewrite andb_true_r. reflexivity.
Qed.

(** An array the schema describes parses to the array of the values parsed
    from its items. *)
Lemma parse_array_items type minLength p items :
  accepts (ZodArray type minLength) (Some (JArray items)) = true ->
  exists xs,
    _parse (ZodArray type minLength) p (Some (JArray items))
      = (OK (Some (JArray xs)), [])
    /\ Forall2 (fun x item =>
                  exists i, _parse type (p ++ [Idx i]) (Some item) = (OK (Some x), []))
               xs items.
Proof.
  intros Hacc.
  destruct (parse_accepted _ p _ Hacc) as (out0 & Hparse & _).
  simpl in Hacc. apply andb_true_iff in Hacc as [_ Hitems].
  rewrite forallb_forall in Hitems.
  destruct (array_items type p items) with (n := 0) as (xs & E1 & E2 & F).
  { intros i item Hin.
    destruct (parse_accepted type (p ++ [Idx i]) (Some item) (Hitems _ Hin))
      as (out & Hout & Hdef & _).
    destruct out as [x|]; [|exfalso; apply Hdef; [discriminate | reflexivity]].
    exists x. exact Hout. }
  exists xs. split; [|exact F].
  rewrite parse_array_eq in Hparse |- *. cbv zeta in Hparse |- *.
  unfold Js.mapi in *. rewrite E1, E2, app_nil_r in *.
  injection Hparse as Hm Hsmall. rewrite Hsmall in *.
  rewrite mergeArray_values. reflexivity.
Qed.

(** A value the schema describes, with no property that parsing leaves out,
    parses to a value deep-equal to it. *)
Lemma parse_keeps s : forall p d,
  proper s = true ->
  accepts s d = true ->
  keeps_all_keys s d = true ->
  exists out, _parse s p d = (OK out, []) /\ deep_eq_opt out d.
Proof.
  induction s as [ | type minLength IH | shape uk IH | type IH | inner IH ]
    using ZodType_nested_ind; intros p d Hproper Hacc Hkeeps.
  - destruct (parse_accepted ZodString p d Hacc) as (out & Hout & _ & Heq).
    exists out. split; [exact Hout|]. rewrite (Heq eq_refl). apply deep_eq_opt_refl.
  - destruct d as [[ | | | | items | ]|]; try discriminate.
    destruct (parse_array_items type minLength p items Hacc) as (xs & Hparse & F).
    exists (Some (JArray xs)). split; [exact Hparse|].
    simpl. constructor.
    simpl in Hacc, Hkeeps, Hproper. apply andb_true_iff in Hacc as [_ Hitems].
    rewrite forallb_forall in Hitems, Hkeeps.
    clear Hparse. induction F as [| x item xs items [i Hx] _ IHF]; constructor.
    + destruct (IH (p ++ [Idx i]) (Some item) Hproper) as (o & Ho & Hdeep).
      * apply Hitems. now left.
      * apply Hkeeps. now left.
      * rewrite Hx in Ho. injection Ho as <-. exact Hdeep.
    + apply IHF; intros y Hy; [apply Hitems | apply Hkeeps]; now right.
  - destruct d as [[ | | | | | props ]|]; try discriminate.
    simpl in Hproper. apply andb_true_iff in Hproper as [Hproper Hfields].
    apply andb_true_iff in Hproper as [Hnd Hproto].
    apply negb_true_iff in Hproto.
    rewrite forallb_forall in Hfields.
    destruct (parse_object_fields shape uk p props Hnd Hacc) as (out & Hparse & Hget).
    exists (Some (JObject out)). split; [exact Hparse|].
    simpl. apply deep_object_by_key. intros k. rewrite Hget.
    simpl in Hacc, Hkeeps. apply andb_true_iff in Hkeeps as [Hkeys Hkeeps].
    rewrite forallb_forall in Hacc, Hkeeps. rewrite Forall_forall in IH.
    assert (Hundeclared : declared shape k = false -> uk = strip ->
                          Js.get k props = None).
    { intros Hk ->. apply JsFacts.get_none_not_key.
      destruct (existsb (String.eqb k) (Js.keys props)) eqn:E; [|reflexivity].
      apply existsb_exists in E as (k' & Hin & E). apply String.eqb_eq in E.
      subst k'. rewrite forallb_forall in Hkeys. rewrite (Hkeys _ Hin) in Hk.
      discriminate. }
    destruct (String.eqb k "__proto__") eqn:Ep.
    + apply String.eqb_eq in Ep. subst k.
      assert (Hnone : Js.get "__proto__" props = None).
      { destruct uk; [now apply Hundeclared|].
        apply negb_true_iff in Hkeys. rewrite JsFacts.has_get in Hkeys.
        destruct (Js.get "__proto__" props); [discriminate | reflexivity]. }
      rewrite Hnone. exact I.
    + pose proof (entry_of_declared shape k) as Hdecl.
      destruct (entry_of shape k) as [e|] eqn:Ee.
      * apply entry_of_Some in Ee as [He <-].
        destruct (IH e He (p ++ [Key (fst e)]) (Js.get (fst e) props)
                    (Hfields e He) (Hacc e He) (Hkeeps e He)) as (o & -> & Hdeep).
        exact Hdeep.
      * destruct uk.
        -- rewrite (Hundeclared Hdecl eq_refl). exact I.
        -- apply deep_eq_opt_refl.
  - destruct d as [[ | | | | | props ]|]; try discriminate.
    destruct (parse_record_fields type p props Hacc) as (out & Hparse & Hget).
    exists (Some (JObject out)). split; [exact Hparse|].
    simpl. apply deep_object_by_key. intros k. rewrite Hget.
    simpl in Hacc, Hkeeps, Hproper. apply andb_true_iff in Hkeeps as [Hproto Hkeeps].
    rewrite forallb_forall in Hacc, Hkeeps.
    apply negb_true_iff in Hproto.
    destruct (String.eqb k "__proto__") eqn:Ep.
    + apply String.eqb_eq in Ep. subst k. rewrite JsFacts.has_get in Hproto.
      destruct (Js.get "__proto__" props); [discriminate | exact I].
    + destruct (Js.has k props) eqn:Eh.
      * assert (Hin : In k (Js.keys props)).
        { rewrite JsFacts.has_keys in Eh. apply existsb_exists in Eh as (k' & Hin & E).
          apply String.eqb_eq in E. now subst. }
        destruct (IH (p ++ [Key k]) (Js.get k props) Hproper (Hacc k Hin) (Hkeeps k Hin))
          as (o & -> & Hdeep).
        exact Hdeep.
      * rewrite JsFacts.has_get in Eh.
        destruct (Js.get k props); [discriminate | exact I].
  - destruct d as [x|].
    + simpl in *. apply IH; assumption.
    + simpl. exists None. split; [reflexivity | exact I].
Qed.

End ZodFacts.

(* ================================================================= *)
(** * The rules of the specification and the validator *)

Module RuleFacts.
Import Zod Meaning Schema ZodFacts.

(** ** The schema of each field is the rule of the specification *)

Lemma forallb_pointwise {A} (f g : A -> bool) l :
  (forall x, f x = g x) -> forallb f l = forallb g l.
Proof. intros H. induction l; simpl; [|rewrite H, IHl]; reflexivity. Qed.

Lemma accepts_string x : accepts string_ x = Rules.is_string x.
Proof. reflexivity. Qed.

Lemma accepts_optional rule s x :
  (forall y, accepts s y = rule y) ->
  accepts (optional s) x = Rules.if_present rule x.
Proof. intros H. destruct x; simpl; [apply H | reflexivity]. Qed.

Lemma accepts_list rule s x :
  (forall y, accepts s y = rule y) ->
  accepts (array s) x = Rules.list_of rule x.
Proof.
  intros H. destruct x as [[ | | | | items | ]|]; try reflexivity.
  simpl. apply forallb_pointwise. intros item. apply H.
Qed.

Lemma accepts_non_empty_list rule s x :
  (forall y, accepts s y = rule y) ->
  accepts (min 1 (array s)) x = Rules.non_empty x && Rules.list_of rule x.
Proof.
  intros H. destruct x as [[ | | | | items | ]|]; try reflexivity.
  simpl. f_equal.
  - destruct items; reflexivity.
  - apply forallb_pointwise. intros item. apply H.
Qed.

Lemma accepts_strings x : accepts (array string_) x = Rules.string_list x.
Proof. apply accepts_list. reflexivity. Qed.

Lemma accepts_non_empty_strings x :
  accepts (min 1 (array string_)) x = Rules.non_empty_string_list x.
Proof.
  rewrite (accepts_non_empty_list Rules.is_string); [apply andb_comm | reflexivity].
Qed.

Lemma accepts_turn x :
  accepts (object [("user", string_);
                   ("content", object [("text", string_);
                                       ("action", optional string_)])]) x
  = Rules.turn x.
Proof.
  destruct x as [[ | | | | | props ]|]; try reflexivity.
  unfold Rules.turn. simpl.
  destruct (Js.get "user" props) as [[]|]; simpl; try reflexivity.
  destruct (Js.get "content" props) as [[ | | | | | content ]|]; simpl;
    try reflexivity.
  destruct (Js.get "text" content) as [[]|]; simpl; try reflexivity.
  all: destruct (Js.get "action" content) as [[]|]; reflexivity.
Qed.

Lemma accepts_message_examples x :
  accepts (min 1 (array (min 1 (array (object [
             ("user", string_);
             ("content", object [("text", string_);
                                 ("action", optional string_)])]))))) x
  = Rules.message_examples x.
Proof.
  apply accepts_non_empty_list. intros y.
  apply accepts_non_empty_list. apply accepts_turn.
Qed.

Lemma accepts_style x :
  accepts (object [("all", min 1 (array string_));
                   ("chat", min 1 (array string_));
                   ("post", min 1 (array string_))]) x
  = Rules.style x.
Proof.
  destruct x as [[ | | | | | props ]|]; try reflexivity.
  unfold Rules.style.
  change (accepts (object ?sh) (Some (JObject props)))
    with (forallb (fun e => accepts (snd e) (Js.get (fst e) props)) sh).
  cbn [forallb fst snd]. rewrite !accepts_non_empty_strings, andb_true_r.
  simpl Rules.is_object. simpl Rules.field. rewrite andb_assoc. reflexivity.
Qed.

Lemma accepts_string_map x : accepts (record string_) x = Rules.string_map x.
Proof. destruct x as [[ | | | | | props ]|]; reflexivity. Qed.

Lemma accepts_voice x : accepts (object [("model", string_)]) x = Rules.voice x.
Proof.
  destruct x as [[ | | | | | props ]|]; try reflexivity.
  unfold Rules.voice. simpl. apply andb_true_r.
Qed.

Lemma accepts_settings x :
  accepts (passthrough_ (object [
             ("secrets", optional (record string_));
             ("voice", optional (object [("model", string_)]))])) x
  = Rules.settings x.
Proof.
  destruct x as [[ | | | | | props ]|]; try reflexivity.
  unfold Rules.settings.
  change (accepts (passthrough_ (object ?sh)) (Some (JObject props)))
    with (forallb (fun e => accepts (snd e) (Js.get (fst e) props)) sh).
  cbn [forallb fst snd].
  rewrite (fun x => accepts_optional _ _ x accepts_string_map).
  rewrite (fun x => accepts_optional _ _ x accepts_voice).
  rewrite andb_true_r. reflexivity.
Qed.

Lemma characterSchema_shape : characterSchema = ZodObject character_shape strip.
Proof. reflexivity. Qed.

(** A document satisfies the rules of the specification exactly when the
    schema describes it. *)
Lemma satisfies_accepts v :
  Rules.satisfies v = accepts characterSchema (Some v).
Proof.
  destruct v as [ | | | | | props ]; try reflexivity.
  unfold Rules.satisfies, Rules.rules, Rules.holds, characterSchema.
  change (accepts (object ?sh) (Some (JObject props)))
    with (forallb (fun e => accepts (snd e) (Js.get (fst e) props)) sh).
  cbn [forallb fst snd Rules.is_object Rules.field andb].
  rewrite !accepts_non_empty_strings,
    accepts_message_examples, accepts_style.
  rewrite !(fun x => accepts_optional _ _ x accepts_strings).
  rewrite (fun x => accepts_optional _ _ x accepts_string).
  rewrite (fun x => accepts_optional _ _ x accepts_settings).
  change (accepts string_) with Rules.is_string.
  apply eq_true_iff_eq. rewrite !andb_true_iff. tauto.
Qed.

(** ** The verdict of [validate] *)

Lemma forallb_filter_nil {A} (f : A -> bool) l :
  forallb f l = true -> filter (fun x => negb (f x)) l = [].
Proof.
  induction l as [| a l IH]; simpl; [reflexivity|].
  intros H. apply andb_true_iff in H as [-> H]. simpl. auto.
Qed.

(** A document the schema describes is returned as an object whose
    properties are those parsed from the declared fields. *)
Lemma validate_accepted v :
  accepts characterSchema (Some v) = true ->
  exists props out,
    v = JObject props
    /\ validate v = Returns (Valid (JObject out))
    /\ forall k,
         Js.get k out =
           if String.eqb k "__proto__" then None
           else match entry_of character_shape k with
                | Some e => value_of (fst (_parse (snd e) [Key k] (Js.get k props)))
                | None => None
                end.
Proof.
  intros Hacc. destruct v as [ | | | | | props ]; try discriminate.
  rewrite characterSchema_shape in Hacc.
  destruct (parse_object_fields character_shape strip [] props eq_refl Hacc)
    as (out & Hparse & Hget).
  exists props, out. split; [reflexivity|]. split; [|exact Hget].
  unfold validate, parse. rewrite characterSchema_shape, Hparse. reflexivity.
Qed.

(** Any other document is answered with the issues of the parse, and there
    is at least one. *)
Lemma validate_rejected v :
  accepts characterSchema (Some v) = false ->
  validate v
    = Returns (Invalid (map format_issue (snd (_parse characterSchema [] (Some v)))))
  /\ snd (_parse characterSchema [] (Some v)) <> [].
Proof.
  intros Hacc. destruct (parse_rejected characterSchema [] (Some v) Hacc) as [Hiss Hres].
  split; [|exact Hiss]. unfold validate, parse.
  destruct (_parse characterSchema [] (Some v)) as [r issues]. simpl in *.
  destruct issues as [| issue issues]; [now elim Hiss|].
  destruct r as [[x|] | x |]; try reflexivity. now elim (Hres (Some x)).
Qed.

Lemma field_accepted props e :
  accepts characterSchema (Some (JObject props)) = true ->
  In e character_shape ->
  accepts (snd e) (Js.get (fst e) props) = true.
Proof.
  intros Hacc He.
  change (forallb (fun e => accepts (snd e) (Js.get (fst e) props)) character_shape
          = true) in Hacc.
  rewrite forallb_forall in Hacc. apply Hacc, He.
Qed.

(** ** Properties that parsing keeps *)

Lemma forallb_true {A} (l : list A) : forallb (fun _ => true) l = true.
Proof. induction l; simpl; auto. Qed.

Lemma flat_keeps s : flat s = true -> forall d, keeps_all_keys s d = true.
Proof.
  induction s as [ | type minLength IH | shape uk IH | type IH | inner IH ]
    using ZodType_nested_ind; simpl; intros Hflat d; try discriminate.
  - reflexivity.
  - destruct d as [[ | | | | items | ]|]; try reflexivity.
    apply forallb_forall. intros item _. apply IH, Hflat.
  - destruct d; [apply IH, Hflat | reflexivity].
Qed.

Ltac flat_fields :=
  repeat match goal with
         | |- context [keeps_all_keys ?s ?d] => rewrite (flat_keeps s eq_refl d)
         end.

Lemma keeps_array rule s m x :
  (forall y, keeps_all_keys s y = rule y) ->
  keeps_all_keys (ZodArray s m) x = Rules.each rule x.
Proof.
  intros H. destruct x as [[ | | | | items | ]|]; try reflexivity.
  simpl. apply forallb_pointwise. intros item. apply H.
Qed.

Lemma keeps_style x :
  keeps_all_keys (object [("all", min 1 (array string_));
                          ("chat", min 1 (array string_));
                          ("post", min 1 (array string_))]) x
  = Rules.only_keys ["all"; "chat"; "post"] x.
Proof.
  destruct x as [[ | | | | | props ]|]; try reflexivity.
  unfold object. cbn [keeps_all_keys forallb fst snd]. flat_fields.
  rewrite !andb_true_r. reflexivity.
Qed.

Lemma keeps_turn x :
  keeps_all_keys (object [("user", string_);
                          ("content", object [("text", string_);
                                              ("action", optional string_)])]) x
  = Rules.only_keys ["user"; "content"] x
    && Rules.only_keys ["text"; "action"] (Rules.field "content" x).
Proof.
  destruct x as [[ | | | | | props ]|]; try reflexivity.
  unfold object. cbn [keeps_all_keys forallb fst snd Rules.field]. flat_fields.
  rewrite !andb_true_l, !andb_true_r. f_equal.
  destruct (Js.get "content" props) as [[ | | | | | content ]|]; try reflexivity.
  cbn [keeps_all_keys forallb fst snd]. flat_fields.
  rewrite !andb_true_r. reflexivity.
Qed.

Lemma keeps_settings x :
  keeps_all_keys (optional (passthrough_ (object [
                    ("secrets", optional (record string_));
                    ("voice", optional (object [("model", string_)]))]))) x
  = Rules.lacks_key "__proto__" x
    && Rules.lacks_key "__proto__" (Rules.field "secrets" x)
    && Rules.only_keys ["model"] (Rules.field "voice" x).
Proof.
  destruct x as [[ | | | | | props ]|]; try reflexivity.
  unfold optional, passthrough_, object, record.
  cbn [keeps_all_keys forallb fst snd Rules.field Rules.lacks_key].
  rewrite andb_true_r, <- andb_assoc. f_equal. f_equal.
  - destruct (Js.get "secrets" props) as [[ | | | | | secrets ]|]; try reflexivity.
    cbn [keeps_all_keys]. rewrite forallb_true. apply andb_true_r.
  - destruct (Js.get "voice" props) as [[ | | | | | voice ]|]; try reflexivity.
    cbn [keeps_all_keys forallb fst snd]. flat_fields.
    rewrite !andb_true_r. reflexivity.
Qed.

(** The objects of a document that hold declared keys only are those that
    parsing keeps whole. *)
Lemma keeps_fields props e :
  Rules.declared_keys_only (JObject props) = true ->
  In e character_shape ->
  keeps_all_keys (snd e) (Js.get (fst e) props) = true.
Proof.
  unfold Rules.declared_keys_only. cbn [Rules.field].
  rewrite !andb_true_iff. intros ((((Hstyle & Hexamples) & Hsettings) & Hsecrets) & Hvoice).
  intros He. unfold character_shape, characterSchema, object in He.
  repeat (destruct He as [<- | He]); try contradiction; cbn [fst snd];
    try (apply flat_keeps; reflexivity).
  - change (keeps_all_keys
              (optional (passthrough_ (object [
                 ("secrets", optional (record string_));
                 ("voice", optional (object [("model", string_)]))])))
              (Js.get "settings" props) = true).
    rewrite keeps_settings, Hsettings, Hsecrets, Hvoice. reflexivity.
  - unfold min, array.
    rewrite (keeps_array
               (Rules.each (fun t =>
                  Rules.only_keys ["user"; "content"] t
                  && Rules.only_keys ["text"; "action"] (Rules.field "content" t)))).
    + exact Hexamples.
    + intros y. apply keeps_array. apply keeps_turn.
  - change (keeps_all_keys
              (object [("all", min 1 (array string_));
                       ("chat", min 1 (array string_));
                       ("post", min 1 (array string_))])
              (Js.get "style" props) = true).
    rewrite keeps_style. exact Hstyle.
Qed.

Lemma plain_field_entry k :
  In k Rules.plain_fields ->
  String.eqb k "__proto__" = false
  /\ exists e, entry_of character_shape k = Some e /\ flat (snd e) = true.
Proof.
  intros H. unfold Rules.plain_fields in H.
  repeat (destruct H as [<- | H]); try contradiction;
    (split; [reflexivity | eexists; split; reflexivity]).
Qed.

Lemma declared_field_entry k :
  In k Rules.fields ->
  String.eqb k "__proto__" = false
  /\ exists e, entry_of character_shape k = Some e /\ proper (snd e) = true.
Proof.
  intros H. unfold Rules.fields, Rules.rules in H. simpl in H.
  repeat (destruct H as [<- | H]); try contradiction;
    (split; [reflexivity | eexists; split; reflexivity]).
Qed.

(** ** Counting the issues of a document *)

Lemma nodup_keys_NoDup l : Js.nodup_keys l = true -> NoDup l.
Proof.
  induction l as [| k rest IH]; simpl; intros H; constructor.
  - apply andb_true_iff in H as [H _]. apply negb_true_iff in H.
    intros Hin. rewrite <- not_true_iff_false in H. apply H.
    apply existsb_exists. exists k. split; [exact Hin | apply String.eqb_refl].
  - apply andb_true_iff in H as [_ H]. auto.
Qed.

Lemma NoDup_map_filter {A B} (f : A -> bool) (key : A -> B) l :
  NoDup (map key l) -> NoDup (map key (filter f l)).
Proof.
  induction l as [| a l IH]; simpl; intros H; [constructor|].
  inversion H as [| ? ? Hnotin Hrest]; subst.
  destruct (f a); simpl; [constructor|]; auto.
  intros Hin. apply Hnotin. apply in_map_iff in Hin as (x & Hx & Hin).
  apply filter_In in Hin as [Hin _]. apply in_map_iff. eauto.
Qed.

Lemma filter_le_concat {A B} (f : A -> bool) (g : A -> list B) l :
  (forall x, In x l -> f x = true -> g x <> []) ->
  List.length (filter f l) <= List.length (List.concat (map g l)).
Proof.
  induction l as [| a l IH]; simpl; intros H; [lia|].
  rewrite length_app.
  assert (IH' : List.length (filter f l) <= List.length (List.concat (map g l))).
  { apply IH. intros x Hx. apply H. now right. }
  destruct (f a) eqn:E; simpl; [|lia].
  assert (Ha : g a <> []) by (apply H; auto).
  destruct (g a); [now elim Ha | simpl; lia].
Qed.

(** Each rule of the specification is the schema of the entry with its key. *)
Lemma rule_entry r :
  In r Rules.rules ->
  exists e, In e character_shape /\ fst e = fst r
            /\ forall x, accepts (snd e) x = snd r x.
Proof.
  intros H. unfold Rules.rules in H.
  repeat (destruct H as [<- | H]); try contradiction; cbn [fst snd];
    match goal with
    | |- exists e, _ /\ fst e = ?k /\ _ =>
        let o := eval vm_compute in (entry_of character_shape k) in
        match o with Some ?e => exists e end
    end;
    (split; [cbv; tauto | split; [reflexivity|]]); cbn [snd].
  - exact accepts_string.
  - exact accepts_string.
  - exact (fun x => accepts_optional _ _ x accepts_string).
  - exact accepts_non_empty_strings.
  - exact accepts_non_empty_strings.
  - exact accepts_non_empty_strings.
  - exact accepts_non_empty_strings.
  - exact accepts_non_empty_strings.
  - exact accepts_non_empty_strings.
  - exact accepts_message_examples.
  - exact accepts_style.
  - exact (fun x => accepts_optional _ _ x accepts_strings).
  - exact (fun x => accepts_optional _ _ x accepts_strings).
  - exact (fun x => accepts_optional _ _ x accepts_settings).
Qed.

Lemma object_issues props :
  snd (_parse characterSchema [] (Some (JObject props)))
  = List.concat (map (field_issues [] props) character_shape).
Proof. rewrite characterSchema_shape, parse_object_eq. reflexivity. Qed.

(** A field whose rule fails raises an issue under its key. *)
Lemma violated_field_issue props r :
  In r Rules.rules ->
  Rules.holds (JObject props) r = false ->
  exists issue rest,
    In issue (snd (_parse characterSchema [] (Some (JObject props))))
    /\ issue_path issue = Key (fst r) :: rest.
Proof.
  intros Hr Hholds. destruct (rule_entry r Hr) as (e & He & Hkey & Hrule).
  unfold Rules.holds in Hholds. cbn [Rules.field] in Hholds.
  rewrite <- Hrule, <- Hkey in Hholds.
  destruct (parse_rejected (snd e) [Key (fst e)] (Js.get (fst e) props) Hholds)
    as [Hiss _].
  destruct (snd (_parse (snd e) [Key (fst e)] (Js.get (fst e) props)))
    as [| issue issues] eqn:E; [now elim Hiss|].
  assert (Hin : In issue (snd (_parse (snd e) [Key (fst e)] (Js.get (fst e) props)))).
  { rewrite E. now left. }
  destruct (issue_paths _ _ _ _ Hin) as (rest & data & Hpath & _).
  exists issue, rest. split.
  - rewrite object_issues. apply in_concat.
    exists (field_issues [] props e). split; [apply in_map, He | exact Hin].
  - rewrite Hpath, <- Hkey. reflexivity.
Qed.

Lemma violated_count props :
  List.length (Rules.violated (JObject props))
  <= List.length (snd (_parse characterSchema [] (Some (JObject props)))).
Proof.
  unfold Rules.violated. cbn [Rules.is_object]. rewrite length_map, object_issues.
  set (failing := filter (fun e => negb (accepts (snd e) (Js.get (fst e) props)))
                         character_shape).
  transitivity (List.length failing).
  - rewrite <- (length_map fst (filter _ Rules.rules)), <- (length_map fst failing).
    apply NoDup_incl_length.
    + apply NoDup_map_filter, nodup_keys_NoDup. reflexivity.
    + intros k Hk. apply in_map_iff in Hk as (r & <- & Hr).
      apply filter_In in Hr as [Hr Hholds]. apply negb_true_iff in Hholds.
      destruct (rule_entry r Hr) as (e & He & Hkey & Hrule).
      apply in_map_iff. exists e. split; [exact Hkey|].
      apply filter_In. split; [exact He|]. apply negb_true_iff.
      rewrite Hrule, Hkey. exact Hholds.
  - apply filter_le_concat. intros e He Hfail. apply negb_true_iff in Hfail.
    apply (parse_rejected (snd e) ([] ++ [Key (fst e)])). exact Hfail.
Qed.

End RuleFacts.

Module ValidatorClaims.
Import Zod Meaning Schema ZodFacts RuleFacts.

(** C1, as stated, fails: a [style] with one more key satisfies the rules,
    and the [style] of the returned object is not deep-equal to it. *)
Lemma style_with_mood_is_stripped :
  Rules.satisfies Examples.style_with_mood = true
  /\ exists out x y,
       validate Examples.style_with_mood = Returns (Valid (JObject out))
       /\ Js.get "style" out = Some x
       /\ Rules.field "style" (Some Examples.style_with_mood) = Some y
       /\ ~ deep_eq x y.
Proof.
  split; [vm_compute; reflexivity|].
  let r := eval vm_compute in (validate Examples.style_with_mood) in
  match r with Returns (Valid (JObject ?o)) => exists o end.
  let x := eval vm_compute in
    (Rules.field "style"
       (match validate Examples.style_with_mood with
        | Returns (Valid out) => Some out
        | _ => None
        end)) in
  match x with Some ?x' => exists x' end.
  let y := eval vm_compute in (Rules.field "style" (Some Examples.style_with_mood)) in
  match y with Some ?y' => exists y' end.
  split; [vm_compute; reflexivity|]. split; [vm_compute; reflexivity|].
  split; [vm_compute; reflexivity|].
  intros H. inversion H as [ | | | | | a b Hnone _ ]; subst.
  destruct (Hnone "mood") as [Hmood _]. discriminate (Hmood eq_refl).
Qed.

End ValidatorClaims.

(* ================================================================= *)
(** * Paths, unknown keys and malformed files *)

Module PathFacts.
Import Zod Meaning Schema ZodFacts RuleFacts.

(** ** Issues of a part are issues of the whole *)

Lemma object_field_issues shape uk p props e issue :
  In e shape ->
  In issue (field_issues p props e) ->
  In issue (snd (_parse (ZodObject shape uk) p (Some (JObject props)))).
Proof.
  intros He Hin. rewrite parse_object_eq. simpl. apply in_concat.
  exists (field_issues p props e). split; [apply in_map, He | exact Hin].
Qed.

Lemma array_item_issues type minLength p items i item issue :
  nth_error items i = Some item ->
  In issue (snd (item_result type p i item)) ->
  In issue (snd (_parse (ZodArray type minLength) p (Some (JArray items)))).
Proof.
  intros Hi Hin. rewrite parse_array_eq. cbv zeta. simpl snd.
  apply in_or_app. right. apply in_concat.
  exists (snd (item_result type p i item)). split; [|exact Hin].
  apply in_map. apply (ZodFacts.mapi_from_nth (item_result type p) items 0 i item Hi).
Qed.

Lemma accepted_no_issues s p d :
  accepts s d = true -> snd (_parse s p d) = [].
Proof.
  intros H. destruct (parse_accepted s p d H) as (out & -> & _). reflexivity.
Qed.

Lemma issue_rejects v issue :
  In issue (snd (_parse characterSchema [] (Some v))) ->
  validate v
  = Returns (Invalid (map format_issue (snd (_parse characterSchema [] (Some v))))).
Proof.
  intros Hin. destruct (accepts characterSchema (Some v)) eqn:Hacc.
  - rewrite (accepted_no_issues _ [] _ Hacc) in Hin. contradiction.
  - apply validate_rejected, Hacc.
Qed.

End PathFacts.

Module ValidatorClaims2.
Import Zod Meaning Schema ZodFacts RuleFacts PathFacts.

(** Whenever turn [j] of example [i] has a [content] object without
    [text], the error list holds the entry
    [messageExamples.i.j.content.text], [Required], [invalid_type]. *)
Lemma missing_text_error props examples i example j turn content :
  Js.get "messageExamples" props = Some (JArray examples) ->
  nth_error examples i = Some (JArray example) ->
  nth_error example j = Some (JObject turn) ->
  Js.get "content" turn = Some (JObject content) ->
  Js.get "text" content = None ->
  exists errs,
    validate (JObject props) = Returns (Invalid errs)
    /\ In {| path := ("messageExamples." ++ Js.string_of_nat i ++ "."
                      ++ Js.string_of_nat j ++ ".content.text")%string;
             message := "Required";
             code := "invalid_type" |} errs.
Proof.
  intros Hexamples Hi Hj Hcontent Htext.
  set (issue := invalid_type_issue
                  [Key "messageExamples"; Idx i; Idx j; Key "content"; Key "text"]
                  t_string None).
  assert (Hin : In issue (snd (_parse characterSchema [] (Some (JObject props))))).
  { rewrite characterSchema_shape.
    apply (object_field_issues _ _ _ _
             ("messageExamples",
              min 1 (array (min 1 (array (object [
                ("user", string_);
                ("content", object [("text", string_);
                                    ("action", optional string_)])])))))).
    { cbv; tauto. }
    unfold field_issues. cbn [fst snd]. rewrite Hexamples.
    apply (array_item_issues _ _ _ _ i _ _ Hi). unfold item_result.
    apply (array_item_issues _ _ _ _ j _ _ Hj). unfold item_result.
    apply (object_field_issues _ _ _ _
             ("content", object [("text", string_); ("action", optional string_)])).
    { simpl; tauto. }
    unfold field_issues. cbn [fst snd]. rewrite Hcontent.
    apply (object_field_issues _ _ _ _ ("text", string_)).
    { simpl; tauto. }
    unfold field_issues. cbn [fst snd]. rewrite Htext.
    left. reflexivity. }
  eexists. split; [apply (issue_rejects _ _ Hin)|].
  apply (in_map format_issue) in Hin. exact Hin.
Qed.

Lemma shape_keys_are_fields e :
  In e character_shape -> In (fst e) Rules.fields.
Proof.
  intros He. unfold character_shape, characterSchema, object in He.
  repeat (destruct He as [<- | He]); try contradiction; cbv; tauto.
Qed.

Lemma parse_optional_some s p x :
  _parse (optional s) p (Some x) = _parse s p (Some x).
Proof. reflexivity. Qed.

(** The key [__proto__] is never copied: the input is accepted, its
    [settings] hold the undeclared keys [model] and [__proto__], and the
    [settings] returned hold [model] only. *)
Lemma proto_key_is_dropped :
  exists out sout,
    validate Examples.with_unknown_keys = Returns (Valid (JObject out))
    /\ Rules.field "__proto__" (Rules.field "settings" (Some Examples.with_unknown_keys))
       = Some (JString "x")
    /\ Js.get "settings" out = Some (JObject sout)
    /\ Js.get "model" sout = Some (JString "gpt")
    /\ Js.get "__proto__" sout = None.
Proof.
  let r := eval vm_compute in (validate Examples.with_unknown_keys) in
  match r with Returns (Valid (JObject ?o)) => exists o end.
  exists [("model", JString "gpt")].
  repeat split; vm_compute; reflexivity.
Qed.

(** C4: the valid document of section 8 with [clients] empty is answered
    with exactly one error, at [clients], with the code [too_small]. *)
Theorem empty_clients_single_error :
  validate Examples.empty_clients
  = Returns (Invalid [ {| path := "clients";
                          message := "Array must contain at least 1 element(s)";
                          code := "too_small" |} ]).
Proof. vm_compute. reflexivity. Qed.

(** C3: when the text of the file is not valid JSON, [validateFile] leaves
    exactly one error, with path [file], message [Invalid JSON format] and
    code [custom], and no character. *)
Theorem malformed_json_single_error
    (JSON_parse : string -> option json) (st : AppState) (f : File) :
  file st = Some f ->
  JSON_parse (text f) = None ->
  errors (validateFile JSON_parse st)
    = Some [ {| path := "file"; message := "Invalid JSON format"; code := "custom" |} ]
  /\ character (validateFile JSON_parse st) = None.
Proof.
  intros Hfile Hparse. unfold validateFile. rewrite Hfile, Hparse.
  split; reflexivity.
Qed.

Lemma malformed_json_witness :
  (file (Examples.fresh_state Examples.broken_file) = Some Examples.broken_file
   /\ Examples.parse_literal (text Examples.broken_file) = None)
  /\ errors (validateFile Examples.parse_literal
               (Examples.fresh_state Examples.broken_file))
       = Some [ {| path := "file"; message := "Invalid JSON format";
                   code := "custom" |} ]
  /\ character (validateFile Examples.parse_literal
                  (Examples.fresh_state Examples.broken_file)) = None.
Proof.
  split; [split; reflexivity|].
  apply (malformed_json_single_error Examples.parse_literal
           (Examples.fresh_state Examples.broken_file) Examples.broken_file);
    reflexivity.
Defined.

End ValidatorClaims2.

(* ================================================================= *)
(** * The tree viewer *)

Module ViewerFacts.
Import JsonViewer.

Lemma mapi_from_map {A B C} (f : nat -> A -> B) (g : B -> C) (h : A -> C) xs :
  (forall i x, g (f i x) = h x) ->
  forall n, map g (Js.mapi_from f n xs) = map h xs.
Proof.
  intros H. induction xs as [| x rest IH]; intros n; simpl;
    [|rewrite H, IH]; reflexivity.
Qed.

(** The children of an array or an object: one per item or property, in
    order, each a fresh node. *)
Lemma children_of_container p :
  is_container (value p) = true ->
  exists nodes,
    children_of p = Returns nodes
    /\ map value nodes = elements (value p)
    /\ Forall (fun c => initialExpanded c = false /\ isRoot c = false) nodes.
Proof.
  unfold children_of. destruct (value p) as [ | | | | items | props ];
    try discriminate; intros _; eexists; (split; [reflexivity|]); split.
  - unfold Js.mapi. rewrite (mapi_from_map _ value (fun x => x)); [apply map_id|].
    reflexivity.
  - apply Forall_forall. intros c Hc.
    apply JsFacts.mapi_from_In in Hc as (i & x & _ & ->). split; reflexivity.
  - simpl. rewrite map_map. reflexivity.
  - apply Forall_forall. intros c Hc.
    apply in_map_iff in Hc as (kv & <- & _). split; reflexivity.
Qed.

Lemma type_of_container v :
  is_container v = true -> type_of v = ty_array \/ type_of v = ty_object.
Proof. destruct v; try discriminate; simpl; auto. Qed.

End ViewerFacts.

Module ViewerClaims.
Import JsonViewer ViewerFacts.

(** C7: an array or an object renders as a header with the summary
    [Array(n)] or [Object{n}] and an expansion control; while expanded it
    shows one child per item or property, in order, [n] in all, and none
    while collapsed. *)
Theorem container_header_and_children (p : JsonNodeProps) (isExpanded : bool) :
  is_container (value p) = true ->
  exists e,
    JsonNode p isExpanded = Returns e
    /\ expandable e = true
    /\ content (display_of e)
       = Str (match value p with
              | JArray _ => "Array(" ++ Js.string_of_nat (count (value p)) ++ ")"
              | _ => "Object{" ++ Js.string_of_nat (count (value p)) ++ "}"
              end)%string
    /\ List.length (visible_children e)
       = (if isExpanded then count (value p) else 0)
    /\ map value (visible_children e)
       = (if isExpanded then elements (value p) else []).
Proof.
  intros Hc. destruct (children_of_container p Hc) as (nodes & Hnodes & Hvalues & _).
  assert (Hdisplay : content (getValueDisplay (value p))
                     = Str (match value p with
                            | JArray _ =>
                                "Array(" ++ Js.string_of_nat (count (value p)) ++ ")"
                            | _ => "Object{" ++ Js.string_of_nat (count (value p)) ++ "}"
                            end)%string).
  { destruct (value p); try discriminate; reflexivity. }
  assert (Hcount : List.length nodes = count (value p)).
  { rewrite <- (length_map value), Hvalues.
    destruct (value p); try discriminate; simpl; [reflexivity|].
    unfold Js.keys. now rewrite !length_map. }
  unfold JsonNode. rewrite Hnodes.
  destruct (type_of_container _ Hc) as [-> | ->]; destruct isExpanded;
    eexists; (split; [reflexivity|]); simpl; auto.
Qed.

Lemma container_witness :
  is_container (value (JsonViewer Examples.valid_document false)) = true
  /\ exists e,
       JsonNode (JsonViewer Examples.valid_document false) true = Returns e
       /\ expandable e = true
       /\ content (display_of e) = Str "Object{10}"
       /\ List.length (visible_children e) = 10
       /\ map value (visible_children e) = map snd Examples.bot.
Proof.
  split; [reflexivity|].
  apply (container_header_and_children (JsonViewer Examples.valid_document false) true).
  reflexivity.
Defined.

(** C5 (as amended): the root node starts expanded whatever flag the caller
    gives, and every node a render creates starts collapsed. *)
Theorem initial_expansion (data : json) (flag : bool) :
  initial_isExpanded (JsonViewer data flag) = true
  /\ forall p isExpanded e c,
       JsonNode p isExpanded = Returns e ->
       In c (visible_children e) ->
       initial_isExpanded c = false.
Proof.
  split; [apply orb_true_r|].
  intros p isExpanded e c Hrender Hc.
  assert (Hchildren : forall nodes, children_of p = Returns nodes ->
                      forall c, In c nodes -> initial_isExpanded c = false).
  { clear. intros nodes H c Hc. unfold children_of in H.
    destruct (value p) as [ | | | | items | props ]; simpl in H;
      try discriminate; injection H as <-;
      first [ contradiction
            | apply in_map_iff in Hc as (kv & <- & _); reflexivity
            | apply JsFacts.mapi_from_In in Hc as (i & x & _ & ->); reflexivity ]. }
  unfold JsonNode in Hrender.
  destruct (type_of (value p)), isExpanded;
    try (injection Hrender as <-; contradiction);
    destruct (children_of p) as [nodes|] eqn:E; try discriminate;
    injection Hrender as <-; apply (Hchildren nodes eq_refl c Hc).
Qed.

(** C5, as stated, fails: created with the flag [false], the root starts
    expanded. *)
Lemma root_ignores_flag :
  JsonViewer.initialExpanded (JsonViewer Examples.valid_document false) = false
  /\ initial_isExpanded (JsonViewer Examples.valid_document false) = true.
Proof. split; reflexivity. Qed.

(** C6, at a [null] value: the node renders as a header with an expansion
    control, and rendering it expanded throws. *)
Lemma null_node_has_expansion_control :
  JsonNode Examples.null_node false
  = Returns (Header TriangleRight (Some "nickname")
               {| className := "text-gray-500"; content := Str "null" |} None)
  /\ JsonNode Examples.null_node true
     = Throws "TypeError: Cannot convert undefined or null to object".
Proof. split; reflexivity. Qed.

(** C8, at a [null] value: the first click renders the node expanded, which
    throws, so two clicks do not bring the collapsed node back. *)
Lemma null_node_click_twice_throws :
  expandable (Header TriangleRight (Some "nickname")
                {| className := "text-gray-500"; content := Str "null" |} None) = true
  /\ click_twice Examples.null_node false
     = Throws "TypeError: Cannot convert undefined or null to object".
Proof. split; reflexivity. Qed.

End ViewerClaims.

(* ================================================================= *)
(** * Further properties of the validator and of the file handlers *)

Module MoreZodFacts.
Import Zod Meaning Schema ZodFacts RuleFacts PathFacts App.

Lemma wrong_type_raised p expected data :
  In expected [t_string; t_array; t_object] ->
  getParsedType data <> expected ->
  raised_for (invalid_type_issue p expected data) data.
Proof. intros He Hne. left. split; [reflexivity|]. exists expected. auto. Qed.

Ltac wrong_type :=
  apply wrong_type_raised;
  [ simpl; tauto
  | simpl; try discriminate;
    match goal with
    | |- context [PrimFloat.is_nan ?n] => destruct (PrimFloat.is_nan n); discriminate
    end ].

(** Every issue sits at a path that leads, inside the value parsed, to the
    value it was raised for. *)
Lemma issue_located s : forall p d issue,
  In issue (snd (_parse s p d)) ->
  exists rest data,
    issue_path issue = p ++ rest /\ at_path rest d = Some data
    /\ raised_for issue data.
Proof.
  induction s as [ | type minLength IH | shape uk IH | type IH | inner IH ]
    using ZodType_nested_ind; intros p d issue Hin.
  - exists [], d. rewrite app_nil_r.
    destruct d as [[]|]; simpl in Hin; try contradiction;
      destruct Hin as [<- | []]; (split; [reflexivity|]);
      (split; [reflexivity|]); wrong_type.
  - destruct d as [[ | | | | items | ]|].
    all: try (simpl in Hin; destruct Hin as [<- | []]; eexists [], _;
              rewrite app_nil_r; split; [reflexivity|]; split; [reflexivity|];
              wrong_type).
    rewrite parse_array_eq in Hin. cbv zeta in Hin. simpl in Hin.
    apply in_app_or in Hin as [Hin | Hin].
    + exists [], (Some (JArray items)). rewrite app_nil_r.
      destruct minLength as [m|]; [|contradiction].
      destruct (Nat.ltb (List.length items) m) eqn:E; [|contradiction].
      destruct Hin as [<- | []]. split; [reflexivity|]. split; [reflexivity|].
      right. split; [reflexivity|]. exists items, m.
      apply Nat.ltb_lt in E. auto.
    + apply in_concat in Hin as (l & Hl & Hin).
      apply in_map_iff in Hl as (r & <- & Hr).
      apply JsFacts.mapi_from_In in Hr as (i & item & Hi & ->). simpl in Hin.
      destruct (IH _ _ _ Hin) as (rest & data & Hp & Hat & Hraised).
      exists (Idx i :: rest), data. rewrite Hp, <- app_assoc. simpl.
      rewrite Hi. auto.
  - destruct d as [[ | | | | | props ]|].
    all: try (simpl in Hin; destruct Hin as [<- | []]; eexists [], _;
              rewrite app_nil_r; split; [reflexivity|]; split; [reflexivity|];
              wrong_type).
    rewrite parse_object_eq in Hin. simpl in Hin.
    apply in_concat in Hin as (l & Hl & Hin).
    apply in_map_iff in Hl as (e & <- & He).
    rewrite Forall_forall in IH.
    destruct (IH e He _ _ _ Hin) as (rest & data & Hp & Hat & Hraised).
    exists (Key (fst e) :: rest), data. rewrite Hp, <- app_assoc. auto.
  - destruct d as [[ | | | | | props ]|].
    all: try (simpl in Hin; destruct Hin as [<- | []]; eexists [], _;
              rewrite app_nil_r; split; [reflexivity|]; split; [reflexivity|];
              wrong_type).
    rewrite parse_record_eq in Hin. simpl in Hin.
    apply in_concat in Hin as (l & Hl & Hin).
    apply in_map_iff in Hl as (k & <- & Hk).
    destruct (IH _ _ _ Hin) as (rest & data & Hp & Hat & Hraised).
    exists (Key k :: rest), data. rewrite Hp, <- app_assoc. auto.
  - destruct d as [x|]; simpl in Hin; [|contradiction].
    apply IH. exact Hin.
Qed.

Lemma has_In k o : Js.has k o = true <-> In k (Js.keys o).
Proof.
  unfold Js.has, Js.keys. rewrite existsb_exists. split.
  - intros (k' & Hin & E). apply String.eqb_eq in E. now subst.
  - intros Hin. exists k. split; [exact Hin | apply String.eqb_refl].
Qed.

Lemma key_has_value k o : In k (Js.keys o) -> exists x, Js.get k o = Some x.
Proof.
  intros Hin. apply has_In in Hin. rewrite JsFacts.has_get in Hin.
  destruct (Js.get k o) as [x|]; [eauto | discriminate].
Qed.

(** What parsing returns for a value the schema describes is again a value
    the schema describes, and one that parsing keeps whole. *)
Lemma parse_output_accepted s : forall p d o issues,
  proper s = true ->
  accepts s d = true ->
  _parse s p d = (OK o, issues) ->
  accepts s o = true /\ keeps_all_keys s o = true.
Proof.
  induction s as [ | type minLength IH | shape uk IH | type IH | inner IH ]
    using ZodType_nested_ind; intros p d o issues Hproper Hacc Hparse.
  - destruct (parse_accepted ZodString p d Hacc) as (o' & Ho & _ & Heq).
    rewrite Ho in Hparse. injection Hparse as <- _. rewrite (Heq eq_refl).
    split; [exact Hacc | reflexivity].
  - destruct d as [[ | | | | items | ]|]; try discriminate.
    destruct (parse_array_items type minLength p items Hacc) as (xs & Hxs & F).
    rewrite Hxs in Hparse. injection Hparse as <- _.
    simpl in Hacc, Hproper |- *. apply andb_true_iff in Hacc as [Hmin Hitems].
    rewrite (Forall2_length F), Hmin. simpl.
    rewrite forallb_forall in Hitems.
    clear Hxs Hmin. induction F as [| x item xs items [i Hx] _ IHF]; simpl.
    + auto.
    + destruct (IH (p ++ [Idx i]) (Some item) (Some x) [] Hproper) as [Ha Hk];
        [apply Hitems; now left | exact Hx |].
      rewrite Ha, Hk. apply IHF. intros y Hy. apply Hitems. now right.
  - destruct d as [[ | | | | | props ]|]; try discriminate.
    simpl in Hproper. apply andb_true_iff in Hproper as [Hproper Hfields].
    apply andb_true_iff in Hproper as [Hnd Hproto].
    apply negb_true_iff in Hproto. rewrite forallb_forall in Hfields.
    destruct (parse_object_fields shape uk p props Hnd Hacc) as (out & Hout & Hget).
    rewrite Hout in Hparse. injection Hparse as <- _.
    simpl in Hacc. rewrite forallb_forall in Hacc. rewrite Forall_forall in IH.
    assert (Hentry : forall e, In e shape ->
              accepts (snd e) (Js.get (fst e) out) = true
              /\ keeps_all_keys (snd e) (Js.get (fst e) out) = true).
    { intros e He. rewrite Hget.
      assert (Hne : String.eqb (fst e) "__proto__" = false).
      { destruct (String.eqb (fst e) "__proto__") eqn:E; [|reflexivity].
        apply String.eqb_eq in E. rewrite <- Hproto. symmetry.
        unfold declared. apply existsb_exists. exists (fst e). split.
        - apply in_map, He.
        - rewrite E. reflexivity. }
      rewrite Hne, (entry_of_In _ _ Hnd He).
      destruct (parse_accepted (snd e) (p ++ [Key (fst e)]) (Js.get (fst e) props)
                  (Hacc e He)) as (oe & Hoe & _).
      rewrite Hoe. simpl.
      apply (IH e He _ _ _ _ (Hfields e He) (Hacc e He) Hoe). }
    split.
    + simpl. apply forallb_forall. intros e He. apply Hentry, He.
    + simpl. apply andb_true_iff. split.
      * destruct uk.
        -- apply forallb_forall. intros k Hk.
           destruct (key_has_value k out Hk) as [x Hx]. rewrite Hget in Hx.
           destruct (String.eqb k "__proto__"); [discriminate|].
           rewrite entry_of_declared.
           destruct (entry_of shape k); [reflexivity | discriminate].
        -- apply negb_true_iff. rewrite JsFacts.has_get, Hget. reflexivity.
      * apply forallb_forall. intros e He. apply Hentry, He.
  - destruct d as [[ | | | | | props ]|]; try discriminate.
    destruct (parse_record_fields type p props Hacc) as (out & Hout & Hget).
    rewrite Hout in Hparse. injection Hparse as <- _.
    simpl in Hacc, Hproper. rewrite forallb_forall in Hacc.
    assert (Hkey : forall k, In k (Js.keys out) ->
              accepts type (Js.get k out) = true
              /\ keeps_all_keys type (Js.get k out) = true).
    { intros k Hk. destruct (key_has_value k out Hk) as [x Hx].
      rewrite Hget in Hx |- *.
      destruct (String.eqb k "__proto__"); [discriminate|].
      destruct (Js.has k props) eqn:Eh; [|discriminate].
      apply has_In in Eh.
      destruct (parse_accepted type (p ++ [Key k]) (Js.get k props) (Hacc k Eh))
        as (oe & Hoe & _).
      rewrite Hoe. simpl.
      apply (IH _ _ _ _ Hproper (Hacc k Eh) Hoe). }
    split; simpl.
    + apply forallb_forall. intros k Hk. apply Hkey, Hk.
    + apply andb_true_iff. split.
      * apply negb_true_iff. rewrite JsFacts.has_get, Hget. reflexivity.
      * apply forallb_forall. intros k Hk. apply Hkey, Hk.
  - destruct d as [x|].
    + simpl in Hproper, Hacc, Hparse.
      destruct (IH _ _ _ _ Hproper Hacc Hparse) as [Ha Hk].
      destruct o; simpl; auto.
    + simpl in Hparse. injection Hparse as <- _. split; reflexivity.
Qed.

Lemma validate_never_throws v : exists result, validate v = Returns result.
Proof.
  destruct (accepts characterSchema (Some v)) eqn:Hacc.
  - destruct (validate_accepted v Hacc) as (props & out & _ & H & _). eauto.
  - destruct (validate_rejected v Hacc) as [H _]. eauto.
Qed.

Lemma valid_is_accepted v out :
  validate v = Returns (Valid out) -> accepts characterSchema (Some v) = true.
Proof.
  intros H. destruct (accepts characterSchema (Some v)) eqn:Hacc; [reflexivity|].
  destruct (validate_rejected v Hacc) as [H' _]. rewrite H' in H. discriminate.
Qed.

Lemma valid_is_parsed v out :
  validate v = Returns (Valid out) ->
  _parse characterSchema [] (Some v) = (OK (Some out), []).
Proof.
  intros H. pose proof (valid_is_accepted v out H) as Hacc.
  destruct (parse_accepted characterSchema [] (Some v) Hacc) as (o & Ho & _).
  unfold validate, parse in H. rewrite Ho in H.
  destruct o as [x|]; [injection H as <-; exact Ho | discriminate].
Qed.

End MoreZodFacts.

Module MoreValidator.
Import Zod Meaning Schema ZodFacts RuleFacts PathFacts App MoreZodFacts.



Lemma required_issue s p :
  is_optional s = false ->
  snd (_parse s p None) = [invalid_type_issue p (expected_type s) None].
Proof. destruct s; try discriminate; reflexivity. Qed.

(** X2: when a required field is missing from an object, the error list
    holds the entry with that field as path, the message [Required] and the
    code [invalid_type]. *)
Theorem missing_required_field props k :
  In k required_keys ->
  Js.get k props = None ->
  exists errs,
    validate (JObject props) = Returns (Invalid errs)
    /\ In {| path := k; message := "Required"; code := "invalid_type" |} errs.
Proof.
  intros Hk Hget. unfold required_keys in Hk.
  apply in_map_iff in Hk as (e & <- & He). apply filter_In in He as [He Hreq].
  apply negb_true_iff in Hreq.
  set (issue := invalid_type_issue [Key (fst e)] (expected_type (snd e)) None).
  assert (Hin : In issue (snd (_parse characterSchema [] (Some (JObject props))))).
  { rewrite characterSchema_shape. apply (object_field_issues _ _ _ _ e _ He).
    unfold field_issues. rewrite Hget, (required_issue _ _ Hreq). left. reflexivity. }
  eexists. split; [apply (issue_rejects _ _ Hin)|].
  apply (in_map format_issue) in Hin. exact Hin.
Qed.

Lemma missing_required_field_witness :
  (In "clients" required_keys
   /\ Rules.field "clients" (Some Examples.no_name_no_clients) = None)
  /\ exists errs,
       validate Examples.no_name_no_clients = Returns (Invalid errs)
       /\ In {| path := "clients"; message := "Required"; code := "invalid_type" |} errs.
Proof.
  split; [split; [vm_compute; tauto | vm_compute; reflexivity]|].
  apply (missing_required_field
           (filter (fun kv => negb (String.eqb (fst kv) "name"
                                    || String.eqb (fst kv) "clients")) Examples.bot)
           "clients").
  - vm_compute. tauto.
  - vm_compute. reflexivity.
Defined.

(** X3: a value that is not an object is answered with exactly one error,
    at the empty path, saying which type was received. *)
Theorem non_object_single_error v :
  Rules.is_object (Some v) = false ->
  validate v
  = Returns (Invalid [ {| path := EmptyString;
                          message := invalid_type_message t_object
                                       (getParsedType (Some v));
                          code := "invalid_type" |} ]).
Proof. destruct v; try discriminate; intros _; reflexivity. Qed.

Lemma non_object_single_error_witness :
  Rules.is_object (Some (JArray [])) = false
  /\ validate (JArray [])
     = Returns (Invalid [ {| path := EmptyString;
                             message := "Expected object, received array";
                             code := "invalid_type" |} ]).
Proof.
  split; [reflexivity|].
  apply (non_object_single_error (JArray [])). reflexivity.
Defined.

Lemma field_pair_ext p props1 props2 e :
  Js.get (fst e) props1 = Js.get (fst e) props2 ->
  field_pair p props1 e = field_pair p props2 e
  /\ field_issues p props1 e = field_issues p props2 e.
Proof.
  intros H. unfold field_pair, field_issues. rewrite !JsFacts.has_get, H. auto.
Qed.

(** X4: the verdict depends on the declared fields only: two objects that
    agree on them get the same answer, whatever else they hold. *)
Theorem verdict_depends_on_declared_fields props1 props2 :
  (forall k, In k Rules.fields -> Js.get k props1 = Js.get k props2) ->
  validate (JObject props1) = validate (JObject props2).
Proof.
  intros H.
  assert (Hparse : _parse characterSchema [] (Some (JObject props1))
                   = _parse characterSchema [] (Some (JObject props2))).
  { rewrite characterSchema_shape, !parse_object_eq. f_equal.
    - f_equal. f_equal. apply map_ext_in. intros e He.
      apply field_pair_ext, H, ValidatorClaims2.shape_keys_are_fields, He.
    - f_equal. apply map_ext_in. intros e He.
      apply field_pair_ext, H, ValidatorClaims2.shape_keys_are_fields, He. }
  unfold validate, parse. rewrite Hparse. reflexivity.
Qed.

Lemma verdict_depends_on_declared_fields_witness :
  (forall k, In k Rules.fields ->
     Js.get k (Examples.bot ++ [("extra", JBool true)]) = Js.get k Examples.bot)
  /\ validate (JObject (Examples.bot ++ [("extra", JBool true)]))
     = validate (JObject Examples.bot).
Proof.
  assert (H : forall k, In k Rules.fields ->
                Js.get k (Examples.bot ++ [("extra", JBool true)])
                = Js.get k Examples.bot).
  { intros k Hk. unfold Rules.fields, Rules.rules in Hk. simpl in Hk.
    repeat (destruct Hk as [<- | Hk]); try contradiction; reflexivity. }
  split; [exact H|].
  apply (verdict_depends_on_declared_fields
           (Examples.bot ++ [("extra", JBool true)]) Examples.bot H).
Defined.

(** X5: the object returned for a valid document is itself valid, and
    validating it again returns an object deep-equal to it. *)
Theorem valid_result_revalidates v out :
  validate v = Returns (Valid out) ->
  exists out',
    validate out = Returns (Valid out') /\ deep_eq out' out.
Proof.
  intros Hvalid. pose proof (valid_is_accepted v out Hvalid) as Hacc.
  pose proof (valid_is_parsed v out Hvalid) as Hparse.
  destruct (parse_output_accepted characterSchema [] (Some v) (Some out) []
              eq_refl Hacc Hparse) as [Hacc' Hkeeps].
  destruct (parse_keeps characterSchema [] (Some out) eq_refl Hacc' Hkeeps)
    as (o & Ho & Hdeep).
  destruct o as [out'|]; [|contradiction].
  exists out'. split; [|exact Hdeep].
  unfold validate, parse. rewrite Ho. reflexivity.
Qed.

Lemma valid_result_revalidates_witness :
  (exists out, validate Examples.with_unknown_keys = Returns (Valid out))
  /\ exists out out',
       validate Examples.with_unknown_keys = Returns (Valid out)
       /\ validate out = Returns (Valid out') /\ deep_eq out' out.
Proof.
  assert (H : exists out, validate Examples.with_unknown_keys = Returns (Valid out)).
  { let r := eval vm_compute in (validate Examples.with_unknown_keys) in
    match r with Returns (Valid ?o) => exists o end.
    vm_compute. reflexivity. }
  split; [exact H|]. destruct H as [out H]. exists out.
  destruct (valid_result_revalidates Examples.with_unknown_keys out H)
    as (out' & H1 & H2).
  exists out'. auto.
Defined.


(** X7: choosing a file clears what an earlier validation left, so that the
    state after validating it depends on the file only, not on the state
    the file was chosen in. *)
Theorem validation_depends_on_file_only
    (JSON_parse : string -> option json) (f : File) (st1 st2 : AppState) :
  validateFile JSON_parse (handleFileChange (Some f) st1)
  = validateFile JSON_parse (handleFileChange (Some f) st2)
  /\ character (handleFileChange (Some f) st1) = None
  /\ errors (handleFileChange (Some f) st1) = None.
Proof.
  unfold validateFile, handleFileChange. simpl.
  destruct (JSON_parse (text f)) as [v|]; [|auto].
  destruct (validate v) as [[out | errs] | e]; auto.
Qed.

End MoreValidator.

(* ================================================================= *)
(** * Further properties of the tree viewer *)

Module MoreViewer.
Import JsonViewer ViewerFacts Tree.



Lemma container_renders (p : JsonNodeProps) (isExpanded : bool) :
  is_container (value p) = true ->
  exists indicator display children,
    JsonNode p isExpanded = Returns (Header indicator (name p) display children).
Proof.
  intros Hc. destruct (children_of_container p Hc) as (nodes & Hnodes & _).
  unfold JsonNode. rewrite Hnodes.
  destruct (type_of_container _ Hc) as [-> | ->]; destruct isExpanded; eauto.
Qed.

(** X9: on an array or an object a click flips the expansion state, and two
    clicks bring the node back to the state it was in. *)
Theorem container_click_twice (p : JsonNodeProps) (isExpanded : bool) :
  is_container (value p) = true ->
  click p isExpanded = Returns (negb isExpanded)
  /\ click_twice p isExpanded = Returns isExpanded.
Proof.
  intros Hc.
  assert (Hclick : forall s, click p s = Returns (negb s)).
  { intros s. unfold click.
    destruct (container_renders p s Hc) as (i & d & c & ->).
    destruct (container_renders p (toggle s) Hc) as (i' & d' & c' & ->).
    reflexivity. }
  split; [apply Hclick|].
  unfold click_twice. rewrite !Hclick, negb_involutive. reflexivity.
Qed.

Lemma container_click_twice_witness :
  is_container (value (JsonViewer Examples.valid_document false)) = true
  /\ click (JsonViewer Examples.valid_document false) true = Returns false
  /\ click_twice (JsonViewer Examples.valid_document false) true = Returns true.
Proof.
  split; [reflexivity|].
  apply (container_click_twice (JsonViewer Examples.valid_document false) true).
  reflexivity.
Defined.

Lemma collapsed_renders (p : JsonNodeProps) :
  exists e, JsonNode p false = Returns e /\ visible_children e = [].
Proof.
  unfold JsonNode. destruct (type_of (value p)); eexists; split; reflexivity.
Qed.

Lemma children_are_fresh (p : JsonNodeProps) nodes c :
  children_of p = Returns nodes -> In c nodes -> initial_isExpanded c = false.
Proof.
  intros H Hc. unfold children_of in H.
  destruct (value p) as [ | | | | items | props ]; simpl in H;
    try discriminate; injection H as <-;
    first [ contradiction
          | apply in_map_iff in Hc as (kv & <- & _); reflexivity
          | apply JsFacts.mapi_from_In in Hc as (i & x & _ & ->); reflexivity ].
Qed.

(** X10: when the viewer is first shown for data other than [null], the
    root renders without throwing, and each child it shows renders in its
    initial state without throwing and shows no children of its own: one
    level of the tree is visible. *)
Theorem first_render_shows_one_level (data : json) (flag : bool) :
  data <> JNull ->
  exists e,
    JsonNode (JsonViewer data flag) (initial_isExpanded (JsonViewer data flag))
      = Returns e
    /\ forall c, In c (visible_children e) ->
         exists e', JsonNode c (initial_isExpanded c) = Returns e'
                    /\ visible_children e' = [].
Proof.
  intros Hdata.
  assert (Hroot : initial_isExpanded (JsonViewer data flag) = true)
    by apply orb_true_r.
  rewrite Hroot.
  assert (Hchild : forall nodes,
            children_of (JsonViewer data flag) = Returns nodes ->
            forall c, In c nodes ->
              exists e', JsonNode c (initial_isExpanded c) = Returns e'
                         /\ visible_children e' = []).
  { intros nodes Hn c Hc. rewrite (children_are_fresh _ _ _ Hn Hc).
    apply collapsed_renders. }
  unfold JsonNode. unfold children_of in *. simpl value in *.
  destruct data as [ | b | n | s | items | props ]; simpl type_of; cbv iota.
  - now elim Hdata.
  - eexists. split; [reflexivity|]. intros c [].
  - eexists. split; [reflexivity|]. intros c [].
  - eexists. split; [reflexivity|]. intros c [].
  - eexists. split; [reflexivity|]. simpl visible_children.
    apply Hchild. reflexivity.
  - eexists. split; [reflexivity|]. simpl visible_children.
    apply Hchild. reflexivity.
Qed.

Lemma first_render_shows_one_level_witness :
  Examples.valid_document <> JNull
  /\ exists e,
       JsonNode (JsonViewer Examples.valid_document false)
                (initial_isExpanded (JsonViewer Examples.valid_document false))
         = Returns e
       /\ forall c, In c (visible_children e) ->
            exists e', JsonNode c (initial_isExpanded c) = Returns e'
                       /\ visible_children e' = [].
Proof.
  assert (H : Examples.valid_document <> JNull) by discriminate.
  split; [exact H|].
  apply (first_render_shows_one_level Examples.valid_document false H).
Defined.

Lemma mapi_from_names {A} (g : nat -> A -> JsonNodeProps) xs :
  (forall i x, name (g i x) = Some (Js.string_of_nat i)) ->
  forall n,
    map name (Js.mapi_from g n xs)
    = map (fun i => Some (Js.string_of_nat i)) (seq n (List.length xs)).
Proof.
  intros H. induction xs as [| x rest IH]; intros n; simpl;
    [|rewrite H, IH]; reflexivity.
Qed.

(** X11: the children of an array are named by their indices, counted from
    0, and the children of an object by its keys, both in the order of the
    value. *)
Theorem children_are_labelled_in_order (p : JsonNodeProps) :
  is_container (value p) = true ->
  exists nodes,
    children_of p = Returns nodes
    /\ map name nodes = labels (value p)
    /\ map value nodes = elements (value p).
Proof.
  intros Hc. destruct (children_of_container p Hc) as (nodes & Hnodes & Hvalues & _).
  exists nodes. split; [exact Hnodes|]. split; [|exact Hvalues].
  unfold children_of in Hnodes.
  destruct (value p) as [ | | | | items | props ]; try discriminate;
    simpl in Hnodes; injection Hnodes as <-.
  - unfold Js.mapi. simpl labels. apply mapi_from_names. reflexivity.
  - simpl. rewrite map_map. reflexivity.
Qed.

Lemma children_are_labelled_in_order_witness :
  is_container (value (child "clients" (Examples.strings ["discord"; "web"]) "clients"))
    = true
  /\ exists nodes,
       children_of (child "clients" (Examples.strings ["discord"; "web"]) "clients")
         = Returns nodes
       /\ map name nodes = [Some "0"; Some "1"]
       /\ map value nodes = [JString "discord"; JString "web"].
Proof.
  split; [reflexivity|].
  apply (children_are_labelled_in_order
           (child "clients" (Examples.strings ["discord"; "web"]) "clients")).
  reflexivity.
Defined.

End MoreViewer.

(* ================================================================= *)
(** * What parsing keeps, and the errors as the faults of the document *)

Module ProjectionFacts.
Import Zod Meaning Schema ZodFacts RuleFacts Projection.

Lemma get_app k a b :
  Js.get k (a ++ b) = match Js.get k a with Some x => Some x | None => Js.get k b end.
Proof.
  induction a as [| [k0 v0] a IH]; simpl; [reflexivity|].
  destruct (String.eqb k k0); [reflexivity | exact IH].
Qed.

Lemma get_filter_key (keep : string -> bool) k props :
  Js.get k (filter (fun kv => keep (fst kv)) props)
  = if keep k then Js.get k props else None.
Proof.
  induction props as [| [k0 v0] props IH]; simpl; [now destruct (keep k)|].
  destruct (String.eqb k k0) eqn:E.
  - apply String.eqb_eq in E. subst k0.
    destruct (keep k) eqn:Ek; simpl; [now rewrite String.eqb_refl | exact IH].
  - destruct (keep k0); simpl; [rewrite E|]; exact IH.
Qed.

Lemma get_map_values (f : json -> json) k props :
  Js.get k (map (fun kv => (fst kv, f (snd kv))) props)
  = option_map f (Js.get k props).
Proof.
  induction props as [| [k0 v0] props IH]; simpl; [reflexivity|].
  destruct (String.eqb k k0); [reflexivity | exact IH].
Qed.

Lemma entry_of_undeclared shape k :
  existsb (String.eqb k) (map fst shape) = false -> entry_of shape k = None.
Proof.
  intros H. pose proof (entry_of_declared shape k) as E. unfold declared in E.
  rewrite H in E. destruct (entry_of shape k); [discriminate | reflexivity].
Qed.

(** The declared properties of a kept object, by key. *)
Lemma get_declared_entries (g : string * ZodType -> json -> json) props shape k :
  Js.nodup_keys (map fst shape) = true ->
  Js.get k (List.concat
              (map (fun e => match Js.get (fst e) props with
                             | Some x => [(fst e, g e x)]
                             | None => []
                             end) shape))
  = match entry_of shape k with
    | Some e => option_map (g e) (Js.get k props)
    | None => None
    end.
Proof.
  induction shape as [| a rest IH]; simpl; intros Hnd; [reflexivity|].
  apply andb_true_iff in Hnd as [Ha Hrest]. apply negb_true_iff in Ha.
  rewrite get_app, (IH Hrest). unfold entry_of. simpl.
  destruct (String.eqb k (fst a)) eqn:E.
  - apply String.eqb_eq in E. subst k.
    fold (entry_of rest (fst a)). rewrite (entry_of_undeclared _ _ Ha).
    destruct (Js.get (fst a) props); simpl; [now rewrite String.eqb_refl|reflexivity].
  - destruct (Js.get (fst a) props); simpl; [rewrite E|]; reflexivity.
Qed.

(** A value the schema describes parses to a value deep-equal to what the
    schema keeps of it. *)
Lemma parse_kept s : forall p d,
  proper s = true ->
  accepts s d = true ->
  exists out, _parse s p d = (OK out, []) /\ deep_eq_opt out (option_map (kept s) d).
Proof.
  induction s as [ | type minLength IH | shape uk IH | type IH | inner IH ]
    using ZodType_nested_ind; intros p d Hproper Hacc.
  - destruct (parse_accepted ZodString p d Hacc) as (out & Hout & _ & Heq).
    exists out. split; [exact Hout|]. rewrite (Heq eq_refl).
    destruct d; simpl; [apply deep_eq_refl | exact I].
  - destruct d as [[ | | | | items | ]|]; try discriminate.
    destruct (parse_array_items type minLength p items Hacc) as (xs & Hparse & F).
    exists (Some (JArray xs)). split; [exact Hparse|].
    simpl. constructor.
    simpl in Hacc, Hproper. apply andb_true_iff in Hacc as [_ Hitems].
    rewrite forallb_forall in Hitems.
    clear Hparse. induction F as [| x item xs items [i Hx] _ IHF]; simpl; constructor.
    + destruct (IH (p ++ [Idx i]) (Some item) Hproper) as (o & Ho & Hdeep).
      * apply Hitems. now left.
      * rewrite Hx in Ho. injection Ho as <-. exact Hdeep.
    + apply IHF. intros y Hy. apply Hitems. now right.
  - destruct d as [[ | | | | | props ]|]; try discriminate.
    simpl in Hproper. apply andb_true_iff in Hproper as [Hproper Hfields].
    apply andb_true_iff in Hproper as [Hnd Hproto].
    apply negb_true_iff in Hproto. rewrite forallb_forall in Hfields.
    destruct (parse_object_fields shape uk p props Hnd Hacc) as (out & Hparse & Hget).
    exists (Some (JObject out)). split; [exact Hparse|].
    simpl. apply deep_object_by_key. intros k.
    rewrite Hget, get_app, (get_declared_entries (fun e => kept (snd e)) _ _ _ Hnd).
    simpl in Hacc. rewrite forallb_forall in Hacc. rewrite Forall_forall in IH.
    destruct (String.eqb k "__proto__") eqn:Ep.
    + apply String.eqb_eq in Ep. subst k.
      rewrite (entry_of_undeclared _ _ Hproto).
      destruct uk; [exact I|].
      rewrite (get_filter_key
                 (fun key => negb (declared shape key)
                             && negb (String.eqb key "__proto__"))).
      rewrite andb_false_r. exact I.
    + pose proof (entry_of_declared shape k) as Hdecl.
      destruct (entry_of shape k) as [e|] eqn:Ee.
      * apply entry_of_Some in Ee as [He <-].
        destruct (IH e He (p ++ [Key (fst e)]) (Js.get (fst e) props)
                    (Hfields e He) (Hacc e He)) as (o & -> & Hdeep).
        simpl value_of.
        destruct (Js.get (fst e) props) as [x|]; simpl in Hdeep |- *; [exact Hdeep|].
        destruct o; [contradiction|].
        destruct uk; [exact I|].
        rewrite (get_filter_key
                   (fun key => negb (declared shape key)
                               && negb (String.eqb key "__proto__"))).
        rewrite Hdecl. exact I.
      * destruct uk; [exact I|].
        rewrite (get_filter_key
                   (fun key => negb (declared shape key)
                               && negb (String.eqb key "__proto__"))).
        rewrite Hdecl, Ep. simpl. apply deep_eq_opt_refl.
  - destruct d as [[ | | | | | props ]|]; try discriminate.
    destruct (parse_record_fields type p props Hacc) as (out & Hparse & Hget).
    exists (Some (JObject out)). split; [exact Hparse|].
    simpl. apply deep_object_by_key. intros k. rewrite Hget, get_map_values.
    rewrite (get_filter_key (fun key => negb (String.eqb key "__proto__"))).
    simpl in Hacc, Hproper. rewrite forallb_forall in Hacc.
    destruct (String.eqb k "__proto__"); [exact I|]. simpl.
    destruct (Js.has k props) eqn:Eh.
    + assert (Hin : In k (Js.keys props)).
      { rewrite JsFacts.has_keys in Eh. apply existsb_exists in Eh as (k' & Hin & E).
        apply String.eqb_eq in E. now subst. }
      destruct (IH (p ++ [Key k]) (Js.get k props) Hproper (Hacc k Hin))
        as (o & -> & Hdeep).
      exact Hdeep.
    + rewrite JsFacts.has_get in Eh.
      destruct (Js.get k props); [discriminate | exact I].
  - destruct d as [x|].
    + simpl in Hproper, Hacc |- *. apply (IH p (Some x)); assumption.
    + simpl. exists None. split; [reflexivity | exact I].
Qed.

Lemma field_schema_entry k :
  In k Rules.fields ->
  entry_of character_shape k = Some (k, field_schema k)
  /\ proper (field_schema k) = true
  /\ String.eqb k "__proto__" = false.
Proof.
  intros H. unfold Rules.fields, Rules.rules in H. simpl in H.
  repeat (destruct H as [<- | H]); try contradiction;
    (split; [vm_compute; reflexivity | split; vm_compute; reflexivity]).
Qed.

End ProjectionFacts.

Module FaultFacts.
Import Zod Meaning Schema ZodFacts RuleFacts Faults.

Lemma string_append_assoc (a b c : string) :
  ((a ++ b) ++ c = a ++ (b ++ c))%string.
Proof. induction a as [| ch a IH]; simpl; [|rewrite IH]; reflexivity. Qed.

(** The dotted path of a member is the dotted path of its parent, a dot and
    the member's key or index. *)
Lemma join_path_member p seg :
  p <> [] -> join_path (p ++ [seg]) = under (join_path p) (seg_string seg).
Proof.
  unfold join_path, under. induction p as [| a p IH]; intros Hp; [now elim Hp|].
  destruct p as [| b p].
  - reflexivity.
  - change (String.concat "." (map seg_string ((a :: b :: p) ++ [seg])))
      with (seg_string a ++ "."
            ++ String.concat "." (map seg_string ((b :: p) ++ [seg])))%string.
    rewrite IH by discriminate.
    change (String.concat "." (map seg_string (a :: b :: p)))
      with (seg_string a ++ "." ++ String.concat "." (map seg_string (b :: p)))%string.
    rewrite !string_append_assoc. reflexivity.
Qed.

Lemma snoc_not_nil {A} (p : list A) x : p ++ [x] <> [].
Proof. destruct p; discriminate. Qed.

Lemma renders_string : renders ZodString a_string.
Proof. intros p d _. destruct d as [[]|]; reflexivity. Qed.

Lemma renders_optional s r : renders s r -> renders (ZodOptional s) (if_present r).
Proof. intros H p d Hp. destruct d; simpl; [apply H, Hp | reflexivity]. Qed.

Lemma item_faults s r p items :
  renders s r -> p <> [] ->
  forall n,
    map of_issue (List.concat (map snd (Js.mapi_from (item_result s p) n items)))
    = List.concat
        (Js.mapi_from
           (fun i item => r (under (join_path p) (Js.string_of_nat i)) (Some item))
           n items).
Proof.
  intros H Hp. induction items as [| item rest IH]; intros n; simpl; [reflexivity|].
  rewrite map_app, IH. f_equal. unfold item_result.
  rewrite (H _ _ (snoc_not_nil p (Idx n))), (join_path_member _ _ Hp). reflexivity.
Qed.

Lemma renders_list s r minimum :
  renders s r -> renders (ZodArray s (Some minimum)) (a_list minimum r).
Proof.
  intros H p d Hp. destruct d as [[ | | | | items | ]|]; try reflexivity.
  rewrite parse_array_eq. cbv zeta. simpl snd. rewrite map_app. unfold a_list.
  f_equal.
  - destruct (Nat.ltb (List.length items) minimum); reflexivity.
  - apply item_faults; assumption.
Qed.

Lemma renders_any_list s r :
  renders s r -> renders (ZodArray s None) (a_list 0 r).
Proof.
  intros H p d Hp. destruct d as [[ | | | | items | ]|]; try reflexivity.
  rewrite parse_array_eq. cbv zeta. simpl snd. unfold a_list.
  change (Nat.ltb (List.length items) 0) with false. simpl app.
  apply item_faults; assumption.
Qed.

Lemma renders_object shape uk fields :
  Forall2 (fun e f => fst e = fst f /\ renders (snd e) (snd f)) shape fields ->
  renders (ZodObject shape uk) (an_object fields).
Proof.
  intros HF p d Hp. destruct d as [[ | | | | | props ]|]; try reflexivity.
  rewrite parse_object_eq. simpl snd. unfold an_object.
  rewrite concat_map, map_map. f_equal.
  induction HF as [| e f shape fields [Hk Hr] _ IH]; simpl; [reflexivity|].
  rewrite IH. f_equal. unfold field_issues.
  rewrite (Hr _ _ (snoc_not_nil p (Key (fst e)))), (join_path_member _ _ Hp), Hk.
  reflexivity.
Qed.

Lemma renders_map s r : renders s r -> renders (ZodRecord s) (a_map r).
Proof.
  intros H p d Hp. destruct d as [[ | | | | | props ]|]; try reflexivity.
  rewrite parse_record_eq. simpl snd. unfold a_map.
  rewrite concat_map, map_map. f_equal. apply map_ext. intros k.
  unfold field_issues. simpl fst. simpl snd.
  rewrite (H _ _ (snoc_not_nil p (Key k))), (join_path_member _ _ Hp). reflexivity.
Qed.

Ltac renders_fields :=
  repeat (first [ apply Forall2_nil
                | apply Forall2_cons; [split; [reflexivity | cbn [fst snd]] |] ]).

Lemma renders_strings : renders (array string_) strings.
Proof. apply renders_any_list, renders_string. Qed.

Lemma renders_non_empty_strings : renders (min 1 (array string_)) non_empty_strings.
Proof. apply (renders_list ZodString), renders_string. Qed.

Lemma renders_content :
  renders (object [("text", string_); ("action", optional string_)]) content.
Proof.
  apply renders_object. renders_fields.
  - apply renders_string.
  - apply renders_optional, renders_string.
Qed.

Lemma renders_turn :
  renders (object [("user", string_);
                   ("content", object [("text", string_);
                                       ("action", optional string_)])]) turn.
Proof.
  apply renders_object. renders_fields; [apply renders_string | apply renders_content].
Qed.

Lemma renders_message_examples :
  renders (min 1 (array (min 1 (array (object [
             ("user", string_);
             ("content", object [("text", string_);
                                 ("action", optional string_)])])))))
          message_examples.
Proof. apply renders_list, renders_list, renders_turn. Qed.

Lemma renders_style :
  renders (object [("all", min 1 (array string_));
                   ("chat", min 1 (array string_));
                   ("post", min 1 (array string_))]) style.
Proof. apply renders_object. renders_fields; apply renders_non_empty_strings. Qed.

Lemma renders_voice : renders (object [("model", string_)]) voice.
Proof. apply renders_object. renders_fields. apply renders_string. Qed.

Lemma renders_settings :
  renders (passthrough_ (object [
             ("secrets", optional (record string_));
             ("voice", optional (object [("model", string_)]))])) settings.
Proof.
  apply renders_object. renders_fields.
  - apply renders_optional, renders_map, renders_string.
  - apply renders_optional, renders_voice.
Qed.

Lemma renders_character_shape :
  Forall2 (fun e f => fst e = fst f /\ renders (snd e) (snd f))
          character_shape fields.
Proof.
  unfold character_shape, characterSchema, object, fields. renders_fields.
  - apply renders_string.
  - apply renders_optional, renders_strings.
  - apply renders_non_empty_strings.
  - apply renders_string.
  - apply renders_optional, renders_settings.
  - apply renders_optional, renders_string.
  - apply renders_non_empty_strings.
  - apply renders_non_empty_strings.
  - apply renders_message_examples.
  - apply renders_non_empty_strings.
  - apply renders_non_empty_strings.
  - apply renders_non_empty_strings.
  - apply renders_optional, renders_strings.
  - apply renders_style.
Qed.

(** The issues of a document, as places and kinds, are its faults. *)
Lemma issues_are_faults v :
  map of_issue (snd (_parse characterSchema [] (Some v))) = of_document v.
Proof.
  destruct v as [ | | | | | props ]; try reflexivity.
  rewrite object_issues. unfold of_document.
  rewrite concat_map, map_map. f_equal.
  pose proof renders_character_shape as HF.
  induction HF as [| e f shape fields [Hk Hr] _ IH]; simpl; [reflexivity|].
  rewrite IH. f_equal. unfold field_issues.
  rewrite (Hr _ _ (snoc_not_nil [] (Key (fst e)))), Hk. reflexivity.
Qed.

Lemma errors_are_faults v errs :
  validate v = Returns (Invalid errs) -> map of_error errs = of_document v.
Proof.
  intros H. destruct (accepts characterSchema (Some v)) eqn:Hacc.
  - destruct (validate_accepted v Hacc) as (props & out & _ & H' & _).
    rewrite H' in H. discriminate.
  - destruct (validate_rejected v Hacc) as [H' _]. rewrite H' in H.
    assert (E : errs = map format_issue (snd (_parse characterSchema [] (Some v))))
      by congruence.
    rewrite E, map_map. apply issues_are_faults.
Qed.

Lemma valid_has_no_faults v out :
  validate v = Returns (Valid out) -> of_document v = [].
Proof.
  intros H. rewrite <- issues_are_faults.
  destruct (accepts characterSchema (Some v)) eqn:Hacc.
  - destruct (parse_accepted characterSchema [] (Some v) Hacc) as (o & -> & _).
    reflexivity.
  - destruct (validate_rejected v Hacc) as [H' _]. rewrite H' in H. discriminate.
Qed.

End FaultFacts.

(* ================================================================= *)
(** * The claims on documents, errors, paths, unknown keys and files *)

Module DocumentClaims.
Import Zod Meaning Schema ZodFacts RuleFacts PathFacts Projection ProjectionFacts.
Import FaultFacts.

(** C1 (as amended): for every JSON value that satisfies the rules of
    section 4.1 the validator returns [Valid].  Each string and string-list
    field of the returned object is the input's.  Every field of the
    returned object is deep-equal to the part of the input's field that the
    schema declares, that is, to the input's field without the keys that
    parsing leaves out; so a field whose objects hold declared keys only is
    deep-equal to the input's, and so is every field when that is true of
    the whole document. *)
Theorem valid_document_fields (v : json) :
  Rules.satisfies v = true ->
  exists out,
    validate v = Returns (Valid (JObject out))
    /\ (forall k, In k Rules.plain_fields ->
          Js.get k out = Rules.field k (Some v))
    /\ (forall k, In k Rules.fields ->
          deep_eq_opt (Js.get k out) (declared_part k (Rules.field k (Some v))))
    /\ (forall k, In k Rules.fields ->
          declared_keys_only_in k (Rules.field k (Some v)) = true ->
          deep_eq_opt (Js.get k out) (Rules.field k (Some v)))
    /\ (Rules.declared_keys_only v = true ->
        forall k, In k Rules.fields ->
          deep_eq_opt (Js.get k out) (Rules.field k (Some v))).
Proof.
  intros Hsat. rewrite satisfies_accepts in Hsat.
  destruct (validate_accepted v Hsat) as (props & out & -> & Hvalid & Hget).
  exists out. split; [exact Hvalid|]. cbn [Rules.field].
  assert (Hfield : forall k, In k Rules.fields ->
            Js.get k out
            = value_of (fst (_parse (field_schema k) [Key k] (Js.get k props)))
            /\ proper (field_schema k) = true
            /\ accepts (field_schema k) (Js.get k props) = true
            /\ In (k, field_schema k) character_shape).
  { intros k Hk. destruct (field_schema_entry k Hk) as (He & Hproper & Hproto).
    rewrite Hget, Hproto, He. split; [reflexivity|]. split; [exact Hproper|].
    apply entry_of_Some in He as [Hin _].
    split; [apply (field_accepted props _ Hsat Hin) | exact Hin]. }
  split; [|split; [|split]].
  - intros k Hk. destruct (plain_field_entry k Hk) as (Hproto & e & He & Hflat).
    rewrite Hget, Hproto, He.
    apply entry_of_Some in He as [Hin <-].
    destruct (parse_accepted (snd e) [Key (fst e)] (Js.get (fst e) props)
                (field_accepted props e Hsat Hin)) as (o & -> & _ & Heq).
    simpl. apply Heq, Hflat.
  - intros k Hk. destruct (Hfield k Hk) as (-> & Hproper & Hacc & _).
    destruct (parse_kept (field_schema k) [Key k] (Js.get k props) Hproper Hacc)
      as (o & -> & Hdeep).
    exact Hdeep.
  - intros k Hk Hkeys. destruct (Hfield k Hk) as (-> & Hproper & Hacc & _).
    destruct (parse_keeps (field_schema k) [Key k] (Js.get k props) Hproper Hacc Hkeys)
      as (o & -> & Hdeep).
    exact Hdeep.
  - intros Hkeys k Hk. destruct (Hfield k Hk) as (-> & Hproper & Hacc & Hin).
    destruct (parse_keeps (field_schema k) [Key k] (Js.get k props) Hproper Hacc
                (keeps_fields props _ Hkeys Hin)) as (o & -> & Hdeep).
    exact Hdeep.
Qed.

Lemma valid_document_fields_witness :
  Rules.satisfies Examples.style_with_mood = true
  /\ exists out,
       validate Examples.style_with_mood = Returns (Valid (JObject out))
       /\ (forall k, In k Rules.plain_fields ->
             Js.get k out = Rules.field k (Some Examples.style_with_mood))
       /\ (forall k, In k Rules.fields ->
             deep_eq_opt (Js.get k out)
               (declared_part k (Rules.field k (Some Examples.style_with_mood))))
       /\ (forall k, In k Rules.fields ->
             declared_keys_only_in k (Rules.field k (Some Examples.style_with_mood))
             = true ->
             deep_eq_opt (Js.get k out)
               (Rules.field k (Some Examples.style_with_mood)))
       /\ (Rules.declared_keys_only Examples.style_with_mood = true ->
           forall k, In k Rules.fields ->
             deep_eq_opt (Js.get k out)
               (Rules.field k (Some Examples.style_with_mood))).
Proof.
  split; [vm_compute; reflexivity|].
  apply (valid_document_fields Examples.style_with_mood). vm_compute; reflexivity.
Defined.

(** What the amended C1 says of the document with one more key in [style]:
    it comes back as the document of section 8, its [messageExamples] held
    declared keys only, and what the schema declares of its [style] is the
    [style] of section 8. *)
Lemma style_with_mood_comes_back_plain :
  validate Examples.style_with_mood = Returns (Valid Examples.valid_document)
  /\ declared_keys_only_in "messageExamples"
       (Rules.field "messageExamples" (Some Examples.style_with_mood)) = true
  /\ declared_keys_only_in "style"
       (Rules.field "style" (Some Examples.style_with_mood)) = false
  /\ declared_part "style" (Rules.field "style" (Some Examples.style_with_mood))
     = Rules.field "style" (Some Examples.valid_document).
Proof. repeat split; vm_compute; reflexivity. Qed.

(** Every error of an invalid document has a message and one of the two
    codes of the schema's rules. *)
Lemma error_is_tagged v errs e :
  validate v = Returns (Invalid errs) ->
  In e errs ->
  message e <> EmptyString
  /\ (code e = "invalid_type" \/ code e = "too_small").
Proof.
  intros Hinvalid He.
  destruct (accepts characterSchema (Some v)) eqn:Hacc.
  { destruct (validate_accepted v Hacc) as (props & out & _ & H & _).
    rewrite H in Hinvalid. discriminate. }
  destruct (validate_rejected v Hacc) as [H _]. rewrite H in Hinvalid.
  assert (Herrs : errs = map format_issue (snd (_parse characterSchema [] (Some v))))
    by congruence.
  rewrite Herrs in He. apply in_map_iff in He as (issue & <- & Hin).
  destruct (MoreZodFacts.issue_located characterSchema [] (Some v) issue Hin)
    as (rest & data & _ & _ & Hraised).
  unfold format_issue. cbn [message code].
  destruct Hraised as [[Hc (expected & _ & _ & Hm)] | [Hc (items & minimum & _ & _ & Hm)]];
    rewrite Hc, Hm.
  - split; [|left; reflexivity].
    unfold invalid_type_message. destruct (getParsedType data); discriminate.
  - split; [|right; reflexivity]. discriminate.
Qed.

(** C2: validation does not stop at the first failure.  Every value gets a
    verdict.  It is [Valid] exactly for a value that satisfies the rules,
    which has no faults.  Otherwise the error list is not empty and its
    entries, as dotted path and code, are exactly the faults of the
    document, one per rule broken and in order: no fault is left out and no
    error is reported without one.  So it has as many entries as there are
    faults, and at least as many as there are fields whose rule is
    violated, each of which has an entry whose path starts at its field;
    and each entry has a message and a code. *)
Theorem every_violated_rule_is_reported (v : json) :
  exists result,
    validate v = Returns result
    /\ match result with
       | Valid _ =>
           Rules.satisfies v = true
           /\ Faults.of_document v = []
           /\ Rules.violated v = []
       | Invalid errs =>
           Rules.satisfies v = false
           /\ errs <> []
           /\ map Faults.of_error errs = Faults.of_document v
           /\ List.length (Rules.violated v) <= List.length errs
           /\ (forall place, In place (Rules.violated v) ->
                exists e rest, In e errs /\ path e = join_path (place ++ rest))
           /\ forall e, In e errs ->
                message e <> EmptyString
                /\ (code e = "invalid_type" \/ code e = "too_small")
       end.
Proof.
  destruct (accepts characterSchema (Some v)) eqn:Hacc.
  - destruct (validate_accepted v Hacc) as (props & out & -> & Hvalid & _).
    eexists. split; [exact Hvalid|]. cbv beta iota.
    rewrite <- satisfies_accepts in Hacc.
    split; [exact Hacc|]. split.
    + apply (valid_has_no_faults _ _ Hvalid).
    + unfold Rules.violated. cbn [Rules.is_object].
      unfold Rules.satisfies in Hacc.
      cbn [Rules.is_object andb] in Hacc.
      rewrite (forallb_filter_nil _ _ Hacc). reflexivity.
  - destruct (validate_rejected v Hacc) as [Hinvalid Hissues].
    eexists. split; [exact Hinvalid|]. cbv beta iota.
    split; [rewrite satisfies_accepts; exact Hacc|].
    split; [|split; [|split; [|split]]].
    + intros H. apply map_eq_nil in H. contradiction.
    + apply (errors_are_faults _ _ Hinvalid).
    + rewrite length_map. destruct v as [ | | | | | props ];
        try (destruct (snd (_parse characterSchema [] _)); [now elim Hissues|];
             simpl; lia).
      apply violated_count.
    + intros place Hplace. destruct v as [ | | | | | props ].
      1-5: destruct Hplace as [<- | []];
           eexists _, []; (split; [left; reflexivity | reflexivity]).
      unfold Rules.violated in Hplace. cbn [Rules.is_object] in Hplace.
      apply in_map_iff in Hplace as (r & <- & Hr).
      apply filter_In in Hr as [Hr Hholds]. apply negb_true_iff in Hholds.
      destruct (violated_field_issue props r Hr Hholds) as (issue & rest & Hin & Hpath).
      exists (format_issue issue), rest. split.
      * apply in_map. exact Hin.
      * simpl. rewrite Hpath. reflexivity.
    + intros e He. exact (error_is_tagged v _ e Hinvalid He).
Qed.

(** The example of C2: without [name] and [clients], two errors. *)
Lemma no_name_no_clients_two_errors :
  validate Examples.no_name_no_clients
  = Returns (Invalid [ {| path := "name"; message := "Required";
                          code := "invalid_type" |};
                       {| path := "clients"; message := "Required";
                          code := "invalid_type" |} ]).
Proof. vm_compute. reflexivity. Qed.


Lemma concat_map_split {A B} (g : A -> list B) l1 x l2 :
  List.concat (map g (l1 ++ x :: l2))
  = List.concat (map g l1) ++ g x ++ List.concat (map g l2).
Proof. rewrite map_app, concat_app. reflexivity. Qed.

Lemma concat_mapi_split {A B} (f : nat -> A -> list B) xs : forall n i x,
  nth_error xs i = Some x ->
  exists before after,
    List.concat (Js.mapi_from f n xs) = before ++ f (n + i) x ++ after.
Proof.
  induction xs as [| a rest IH]; intros n [| i] x H; simpl in *; try discriminate.
  - injection H as ->. rewrite Nat.add_0_r. exists [], (List.concat (Js.mapi_from f (S n) rest)).
    reflexivity.
  - destruct (IH (S n) i x H) as (b & a' & E). rewrite E.
    exists (f n a ++ b), a'. rewrite Nat.add_succ_r, <- app_assoc. reflexivity.
Qed.

(** The faults of the example at index [i] are part of the faults of the
    document. *)
Lemma example_faults_in_document props examples i example :
  Js.get "messageExamples" props = Some (JArray examples) ->
  nth_error examples i = Some example ->
  exists before after,
    Faults.of_document (JObject props)
    = before
      ++ Faults.example ("messageExamples." ++ Js.string_of_nat i)%string (Some example)
      ++ after.
Proof.
  intros Hexamples Hi. unfold Faults.of_document.
  change Faults.fields
    with (firstn 8 Faults.fields
          ++ ("messageExamples", Faults.message_examples) :: skipn 9 Faults.fields).
  rewrite concat_map_split. cbn [fst snd]. rewrite Hexamples.
  unfold Faults.message_examples at 1. unfold Faults.a_list at 1. unfold Js.mapi.
  destruct (concat_mapi_split
              (fun i item =>
                 Faults.example (Faults.under "messageExamples" (Js.string_of_nat i))
                   (Some item)) examples 0 i example Hi) as (b & a & E).
  rewrite E. cbn [Nat.add].
  match goal with
  | |- exists before after, ?pre ++ (?small ++ b ++ ?mid ++ a) ++ ?post = _ =>
      exists (pre ++ small ++ b), (a ++ post)
  end.
  rewrite <- !app_assoc. reflexivity.
Qed.

(** C9: the path of an error at a nested place joins the keys and indices
    that lead there with dots.  For the example at index [i] of
    [messageExamples], the errors hold, side by side and in order, exactly
    the faults of that example, each at the dotted path that starts with
    [messageExamples.i] and goes on with the indices and keys that lead to
    the faulty value; a faulty example makes the document invalid; a turn
    [j] whose [content] lacks its [text] gives the entry
    [messageExamples.i.j.content.text], [Required], [invalid_type]; and the
    path of every error is the keys and indices of a path that leads into
    the document, joined by dots. *)
Theorem nested_error_paths props examples i example :
  Js.get "messageExamples" props = Some (JArray examples) ->
  nth_error examples i = Some example ->
  (forall errs,
     validate (JObject props) = Returns (Invalid errs) ->
     exists before after,
       map Faults.of_error errs
       = before
         ++ Faults.example ("messageExamples." ++ Js.string_of_nat i)%string (Some example)
         ++ after)
  /\ (Faults.example ("messageExamples." ++ Js.string_of_nat i)%string (Some example) <> [] ->
      exists errs, validate (JObject props) = Returns (Invalid errs))
  /\ (forall turns j turn content,
        example = JArray turns ->
        nth_error turns j = Some (JObject turn) ->
        Js.get "content" turn = Some (JObject content) ->
        Js.get "text" content = None ->
        exists errs,
          validate (JObject props) = Returns (Invalid errs)
          /\ In {| path := ("messageExamples." ++ Js.string_of_nat i ++ "."
                            ++ Js.string_of_nat j ++ ".content.text")%string;
                   message := "Required";
                   code := "invalid_type" |} errs)
  /\ (forall errs e,
        validate (JObject props) = Returns (Invalid errs) ->
        In e errs ->
        exists segments data,
          path e = String.concat "." (map seg_string segments)
          /\ at_path segments (Some (JObject props)) = Some data).
Proof.
  intros Hexamples Hi.
  destruct (example_faults_in_document props examples i example Hexamples Hi)
    as (before & after & Hdoc).
  split; [|split; [|split]].
  - intros errs Hinvalid. exists before, after.
    rewrite (errors_are_faults _ _ Hinvalid). exact Hdoc.
  - intros Hfaulty.
    destruct (MoreZodFacts.validate_never_throws (JObject props)) as [[out | errs] H].
    + apply valid_has_no_faults in H. rewrite Hdoc in H.
      apply app_eq_nil in H as [_ H]. apply app_eq_nil in H as [H _]. contradiction.
    + exists errs. exact H.
  - intros turns j turn content -> Hj Hcontent Htext.
    exact (ValidatorClaims2.missing_text_error props examples i turns j turn content
             Hexamples Hi Hj Hcontent Htext).
  - intros errs e Hinvalid He.
    destruct (accepts characterSchema (Some (JObject props))) eqn:Hacc.
    { destruct (validate_accepted _ Hacc) as (props' & out & _ & H & _).
      rewrite H in Hinvalid. discriminate. }
    destruct (validate_rejected _ Hacc) as [H _]. rewrite H in Hinvalid.
    assert (Herrs : errs = map format_issue
                             (snd (_parse characterSchema [] (Some (JObject props)))))
      by congruence.
    rewrite Herrs in He. apply in_map_iff in He as (issue & <- & Hin).
    destruct (MoreZodFacts.issue_located characterSchema [] (Some (JObject props))
                issue Hin) as (rest & data & Hpath & Hat & _).
    exists (issue_path issue), data. split; [reflexivity|].
    rewrite Hpath. exact Hat.
Qed.

Lemma nested_error_paths_witness :
  (Js.get "messageExamples" MoreExamples.faulty_props
   = Some (JArray MoreExamples.example_list)
   /\ nth_error MoreExamples.example_list 11 = Some MoreExamples.faulty_example)
  /\ Faults.example "messageExamples.11" (Some MoreExamples.faulty_example)
     = [ ("messageExamples.11.1.content.text", "invalid_type");
         ("messageExamples.11.2.user", "invalid_type");
         ("messageExamples.11.2.content.action", "invalid_type");
         ("messageExamples.11.3", "invalid_type") ]
  /\ (forall errs,
        validate (JObject MoreExamples.faulty_props) = Returns (Invalid errs) ->
        exists before after,
          map Faults.of_error errs
          = before
            ++ Faults.example ("messageExamples." ++ Js.string_of_nat 11)%string
                 (Some MoreExamples.faulty_example)
            ++ after)
  /\ (Faults.example ("messageExamples." ++ Js.string_of_nat 11)%string
        (Some MoreExamples.faulty_example) <> [] ->
      exists errs,
        validate (JObject MoreExamples.faulty_props) = Returns (Invalid errs))
  /\ (forall turns j turn content,
        MoreExamples.faulty_example = JArray turns ->
        nth_error turns j = Some (JObject turn) ->
        Js.get "content" turn = Some (JObject content) ->
        Js.get "text" content = None ->
        exists errs,
          validate (JObject MoreExamples.faulty_props) = Returns (Invalid errs)
          /\ In {| path := ("messageExamples." ++ Js.string_of_nat 11 ++ "."
                            ++ Js.string_of_nat j ++ ".content.text")%string;
                   message := "Required";
                   code := "invalid_type" |} errs)
  /\ (forall errs e,
        validate (JObject MoreExamples.faulty_props) = Returns (Invalid errs) ->
        In e errs ->
        exists segments data,
          path e = String.concat "." (map seg_string segments)
          /\ at_path segments (Some (JObject MoreExamples.faulty_props)) = Some data).
Proof.
  assert (H1 : Js.get "messageExamples" MoreExamples.faulty_props
               = Some (JArray MoreExamples.example_list))
    by (vm_compute; reflexivity).
  assert (H2 : nth_error MoreExamples.example_list 11
               = Some MoreExamples.faulty_example)
    by (vm_compute; reflexivity).
  split; [split; [exact H1 | exact H2]|].
  split; [vm_compute; reflexivity|].
  exact (nested_error_paths MoreExamples.faulty_props MoreExamples.example_list
           11 MoreExamples.faulty_example H1 H2).
Defined.

(** The errors of the document with the faulty examples, as the validator
    gives them: every nested path is the keys and indices joined by dots,
    the index 11 written in decimal. *)
Lemma faulty_examples_errors :
  validate MoreExamples.faulty_examples
  = Returns (Invalid [
      {| path := "messageExamples.11.1.content.text"; message := "Required";
         code := "invalid_type" |};
      {| path := "messageExamples.11.2.user"; message := "Required";
         code := "invalid_type" |};
      {| path := "messageExamples.11.2.content.action";
         message := "Expected string, received number";
         code := "invalid_type" |};
      {| path := "messageExamples.11.3";
         message := "Expected object, received string";
         code := "invalid_type" |};
      {| path := "messageExamples.12";
         message := "Array must contain at least 1 element(s)";
         code := "too_small" |};
      {| path := "messageExamples.13";
         message := "Expected array, received null";
         code := "invalid_type" |} ]).
Proof. vm_compute. reflexivity. Qed.


(** A string the schema accepts is returned as it is. *)
Lemma parse_string_value p d :
  accepts string_ d = true -> value_of (fst (_parse string_ p d)) = d.
Proof.
  intros Hacc. destruct (parse_accepted string_ p d Hacc) as (o & -> & _ & Heq).
  simpl. apply Heq. reflexivity.
Qed.

(** C10 (as amended): the object returned for an accepted input has no
    top-level key but those of the schema.  Its [settings] keep every key
    of the input's [settings] other than [secrets] and [voice] with its
    value, except [__proto__], which they never hold; [secrets] keeps all
    of its entries except [__proto__]; and [voice] keeps [model] and no
    other key. *)
Theorem unknown_keys_of_valid_result v out :
  validate v = Returns (Valid out) ->
  exists props oprops,
    v = JObject props /\ out = JObject oprops
    /\ (forall k, Js.has k oprops = true -> In k Rules.fields)
    /\ forall sprops,
         Js.get "settings" props = Some (JObject sprops) ->
         exists sout,
           Js.get "settings" oprops = Some (JObject sout)
           /\ (forall k, k <> "secrets" -> k <> "voice" ->
                 Js.get k sout
                 = if String.eqb k "__proto__" then None else Js.get k sprops)
           /\ match Js.get "secrets" sprops with
              | Some (JObject secrets) =>
                  exists secrets_out,
                    Js.get "secrets" sout = Some (JObject secrets_out)
                    /\ forall k,
                         Js.get k secrets_out
                         = if String.eqb k "__proto__" then None
                           else Js.get k secrets
              | _ => Js.get "secrets" sout = None
              end
           /\ match Js.get "voice" sprops with
              | Some (JObject voice) =>
                  exists voice_out,
                    Js.get "voice" sout = Some (JObject voice_out)
                    /\ forall k,
                         Js.get k voice_out
                         = if String.eqb k "model" then Js.get k voice else None
              | _ => Js.get "voice" sout = None
              end.
Proof.
  intros Hvalid. destruct (accepts characterSchema (Some v)) eqn:Hacc.
  2:{ destruct (validate_rejected v Hacc) as [H _]. rewrite H in Hvalid. discriminate. }
  destruct (validate_accepted v Hacc) as (props & oprops & -> & H & Hget).
  rewrite H in Hvalid. injection Hvalid as <-.
  exists props, oprops. split; [reflexivity|]. split; [reflexivity|]. split.
  - intros k Hk. rewrite JsFacts.has_get, Hget in Hk.
    destruct (String.eqb k "__proto__"); [discriminate|].
    destruct (entry_of character_shape k) as [e|] eqn:He; [|discriminate].
    apply entry_of_Some in He as [He <-].
    apply ValidatorClaims2.shape_keys_are_fields, He.
  - intros sprops Hsettings.
    pose proof (Hget "settings") as Hs.
    change (String.eqb "settings" "__proto__") with false in Hs.
    assert (He : entry_of character_shape "settings"
                 = Some ("settings",
                         optional (passthrough_ (object [
                           ("secrets", optional (record string_));
                           ("voice", optional (object [("model", string_)]))]))))
      by reflexivity.
    rewrite He in Hs. cbn [snd] in Hs.
    rewrite Hsettings, ValidatorClaims2.parse_optional_some in Hs.
    pose proof (field_accepted props _ Hacc
                  (proj1 (entry_of_Some _ _ _ He))) as Hfield.
    cbn [fst snd] in Hfield. rewrite Hsettings in Hfield.
    destruct (parse_object_fields
                [("secrets", optional (record string_));
                 ("voice", optional (object [("model", string_)]))]
                passthrough [Key "settings"] sprops eq_refl Hfield)
      as (sout & Hparse & Hsget).
    change (passthrough_ (object ?sh)) with (ZodObject sh passthrough) in Hs.
    rewrite Hparse in Hs. exists sout. split; [exact Hs|].
    assert (Hparts : accepts (optional (record string_)) (Js.get "secrets" sprops) = true
                     /\ accepts (optional (object [("model", string_)]))
                          (Js.get "voice" sprops) = true).
    { change (accepts (optional (record string_)) (Js.get "secrets" sprops)
              && (accepts (optional (object [("model", string_)]))
                    (Js.get "voice" sprops) && true) = true) in Hfield.
      apply andb_true_iff in Hfield as [H1 H2].
      apply andb_true_iff in H2 as [H2 _]. auto. }
    destruct Hparts as [Hsecrets Hvoice].
    split; [|split].
    + intros k Hk1 Hk2. rewrite Hsget.
      apply String.eqb_neq in Hk1, Hk2.
      unfold entry_of. simpl. rewrite Hk1, Hk2. reflexivity.
    + pose proof (Hsget "secrets") as Hk.
      change (String.eqb "secrets" "__proto__") with false in Hk.
      change (entry_of _ "secrets")
        with (Some ("secrets", optional (record string_))) in Hk.
      cbn [snd] in Hk.
      destruct (Js.get "secrets" sprops) as [[ | | | | | secrets ]|] eqn:Es;
        try discriminate Hsecrets; [|exact Hk].
      rewrite ValidatorClaims2.parse_optional_some in Hk.
      destruct (parse_record_fields string_ ([Key "settings"] ++ [Key "secrets"])
                  secrets Hsecrets) as (secrets_out & Hp & Hg).
      change (record string_) with (ZodRecord string_) in Hk.
      rewrite Hp in Hk. exists secrets_out. split; [exact Hk|].
      intros k. rewrite Hg. destruct (String.eqb k "__proto__"); [reflexivity|].
      rewrite JsFacts.has_get.
      destruct (Js.get k secrets) as [x|] eqn:Ex; [|reflexivity].
      rewrite <- Ex. apply parse_string_value. rewrite Ex.
      simpl in Hsecrets. rewrite forallb_forall in Hsecrets.
      rewrite <- Ex. apply Hsecrets. apply MoreZodFacts.has_In.
      rewrite JsFacts.has_get, Ex. reflexivity.
    + pose proof (Hsget "voice") as Hk.
      change (String.eqb "voice" "__proto__") with false in Hk.
      change (entry_of _ "voice")
        with (Some ("voice", optional (object [("model", string_)]))) in Hk.
      cbn [snd] in Hk.
      destruct (Js.get "voice" sprops) as [[ | | | | | voice ]|] eqn:Ev;
        try discriminate Hvoice; [|exact Hk].
      rewrite ValidatorClaims2.parse_optional_some in Hk.
      destruct (parse_object_fields [("model", string_)] strip
                  ([Key "settings"] ++ [Key "voice"]) voice eq_refl Hvoice)
        as (voice_out & Hp & Hg).
      change (object [("model", string_)])
        with (ZodObject [("model", string_)] strip) in Hk.
      rewrite Hp in Hk. exists voice_out. split; [exact Hk|].
      intros k. rewrite Hg.
      destruct (String.eqb k "model") eqn:Ek.
      * apply String.eqb_eq in Ek. subst k. simpl.
        apply parse_string_value.
        change (accepts string_ (Js.get "model" voice) && true = true) in Hvoice.
        apply andb_true_iff in Hvoice as [Hm _]. exact Hm.
      * unfold entry_of. simpl. rewrite Ek.
        destruct (String.eqb k "__proto__"); reflexivity.
Qed.

Lemma unknown_keys_witness :
  (exists out, validate MoreExamples.with_settings = Returns (Valid out))
  /\ exists out props oprops,
       validate MoreExamples.with_settings = Returns (Valid out)
       /\ MoreExamples.with_settings = JObject props /\ out = JObject oprops
       /\ (forall k, Js.has k oprops = true -> In k Rules.fields)
       /\ forall sprops,
            Js.get "settings" props = Some (JObject sprops) ->
            exists sout,
              Js.get "settings" oprops = Some (JObject sout)
              /\ (forall k, k <> "secrets" -> k <> "voice" ->
                    Js.get k sout
                    = if String.eqb k "__proto__" then None else Js.get k sprops)
              /\ match Js.get "secrets" sprops with
                 | Some (JObject secrets) =>
                     exists secrets_out,
                       Js.get "secrets" sout = Some (JObject secrets_out)
                       /\ forall k,
                            Js.get k secrets_out
                            = if String.eqb k "__proto__" then None
                              else Js.get k secrets
                 | _ => Js.get "secrets" sout = None
                 end
              /\ match Js.get "voice" sprops with
                 | Some (JObject voice) =>
                     exists voice_out,
                       Js.get "voice" sout = Some (JObject voice_out)
                       /\ forall k,
                            Js.get k voice_out
                            = if String.eqb k "model" then Js.get k voice else None
                 | _ => Js.get "voice" sout = None
                 end.
Proof.
  assert (H : exists out, validate MoreExamples.with_settings = Returns (Valid out)).
  { let r := eval vm_compute in (validate MoreExamples.with_settings) in
    match r with Returns (Valid ?o) => exists o end.
    vm_compute. reflexivity. }
  split; [exact H|]. destruct H as [out H]. exists out.
  destruct (unknown_keys_of_valid_result MoreExamples.with_settings out H)
    as (props & oprops & H1 & H2 & H3).
  exists props, oprops. split; [exact H|]. split; [exact H1|].
  split; [exact H2 | exact H3].
Defined.

(** C10, as stated, fails whatever the version of the library: the input is
    accepted, its [settings.voice] holds the undeclared key [speed], and
    the [settings.voice] returned holds [model] only; the undeclared keys
    of [settings] itself, [model] and [limits], are kept, and the
    undeclared top-level key [extra] is not. *)
Lemma voice_speed_is_dropped :
  exists out sout voice_out,
    validate MoreExamples.with_settings = Returns (Valid (JObject out))
    /\ Rules.field "speed"
         (Rules.field "voice"
            (Rules.field "settings" (Some MoreExamples.with_settings)))
       = Some (JString "fast")
    /\ Js.get "extra" out = None
    /\ Js.get "settings" out = Some (JObject sout)
    /\ Js.get "model" sout = Some (JString "gpt")
    /\ Js.get "limits" sout = Some (JObject [("daily", JNull)])
    /\ Js.get "voice" sout = Some (JObject voice_out)
    /\ voice_out = [("model", JString "m")]
    /\ Js.get "speed" voice_out = None.
Proof.
  let r := eval vm_compute in (validate MoreExamples.with_settings) in
  match r with Returns (Valid (JObject ?o)) => exists o end.
  exists [ ("secrets", JObject [("API_KEY", JString "k")]);
           ("voice", JObject [("model", JString "m")]);
           ("model", JString "gpt");
           ("limits", JObject [("daily", JNull)]) ].
  exists [("model", JString "m")].
  repeat split; vm_compute; reflexivity.
Qed.


(** A file that cannot be read: the one error, and no character. *)
Lemma unreadable_file_single_error :
  Reading.validateFile_reading Examples.parse_literal (fun _ => false)
    (Examples.fresh_state {| text := "null" |})
  = {| file := Some {| text := "null" |}; character := None;
       errors := Some [ {| path := "file"; message := "Invalid JSON format";
                           code := "custom" |} ];
       isLoading := false |}.
Proof. reflexivity. Qed.

End DocumentClaims.
